(** * Adaptive block sort: a shallow embedding of [abs.py] and [oabs.py]

    The two Python functions [adaptive_block_sort] (abs.py) and
    [optimized_adaptive_block_sort] (oabs.py) are embedded as Rocq functions
    on [list Z].  Python lists are arrays: every subscript of the source is a
    checked access here, and the [while] loops run on fuel that the entry
    points compute from the length of the input. *)

From Stdlib Require Import ZArith Lia.
From stdpp Require Import base list numbers sorting.

Local Open Scope Z_scope.

(** ** Results of a run

    A Python call either returns or raises.  [IndexError] is the exception of
    a subscript out of range; [OutOfFuel] is the model's own: a [while] loop
    that did not stop within the fuel it was given. *)

Inductive outcome (A : Type) : Type :=
| Ok (a : A)
| IndexError
| OutOfFuel.

Arguments Ok {A} a.
Arguments IndexError {A}.
Arguments OutOfFuel {A}.

#[global] Instance outcome_ret : MRet outcome := @Ok.

#[global] Instance outcome_bind : MBind outcome := λ A B f m,
  match m with
  | Ok a => f a
  | IndexError => IndexError
  | OutOfFuel => OutOfFuel
  end.

#[global] Instance outcome_fmap : FMap outcome := λ A B f m,
  match m with
  | Ok a => Ok (f a)
  | IndexError => IndexError
  | OutOfFuel => OutOfFuel
  end.

(** ** Python lists as arrays *)

Module Py.

(** [len(a)] *)
Definition len {A} (a : list A) : Z := Z.of_nat (length a).

(** [a[i]].  Python accepts [-len(a) <= i < len(a)] and reads from the end
    for a negative [i]; the model is stricter and raises outside
    [0 <= i < len(a)].  Whenever the model returns [Ok], Python reads the
    same cell. *)
Definition getitem {A} (a : list A) (i : Z) : outcome A :=
  if 0 <=? i then
    match a !! Z.to_nat i with
    | Some v => Ok v
    | None => IndexError
    end
  else IndexError.

(** [a[i] = v], with the same strict bounds. *)
Definition setitem {A} (a : list A) (i : Z) (v : A) : outcome (list A) :=
  if (0 <=? i) && (i <? len a) then Ok (<[Z.to_nat i := v]> a)
  else IndexError.

(** [range(start, stop, step)] for a positive [step]: its length is
    computed up front, as CPython does. *)
Definition range (start stop step : Z) : list Z :=
  (λ t : nat, start + Z.of_nat t * step)
    <$> seq 0 (Z.to_nat ((stop - start + step - 1) `div` step)).

(** [for x in xs: s = body(x, s)] *)
Fixpoint for_each {S : Type} (body : Z → S → outcome S) (xs : list Z) (s : S)
  : outcome S :=
  match xs with
  | [] => Ok s
  | x :: xs' => s' ← body x s; for_each body xs' s'
  end.

End Py.

(** ** [heapq] on pairs [(value, block_id)]

    [heapq] is Python's standard library, not code of this repository; it is
    modelled by its contract.  The heap is a bag of pairs; [heappush] adds one
    pair, [heappop] removes and returns the smallest pair in Python's tuple
    order (first components, then second components).  Pairs of integers are
    totally ordered, so the contract fixes the pair that every pop returns
    and the bag that it leaves. *)

Module Heapq.

Definition item : Type := Z * Z.

(** Python's [x <= y] on 2-tuples of integers. *)
Definition item_le (x y : item) : bool :=
  (x.1 <? y.1) || ((x.1 =? y.1) && (x.2 <=? y.2)).

Definition heappush (heap : list item) (x : item) : list item := x :: heap.

(** The smallest pair of [x :: heap], and the other pairs. *)
Fixpoint pop_min (x : item) (heap : list item) : item * list item :=
  match heap with
  | [] => (x, [])
  | y :: heap' =>
      if item_le x y
      then let '(m, rest) := pop_min x heap' in (m, y :: rest)
      else let '(m, rest) := pop_min y heap' in (m, x :: rest)
  end.

(** [heappop(heap)]; on an empty heap Python raises [IndexError]. *)
Definition heappop (heap : list item) : outcome (item * list item) :=
  match heap with
  | [] => IndexError
  | x :: heap' => Ok (pop_min x heap')
  end.

End Heapq.

(** ** The phases shared by both files

    Steps 1 and 2 and the push of a block's next element are the same text in
    abs.py and oabs.py; only the block size differs. *)

(** [while k >= i and arr[k] > key: arr[k + 1] = arr[k]; k -= 1]
    (abs.py 18-20, oabs.py 36-38 and 90-92).  [and] short-circuits: [arr[k]]
    is read only when [k >= i]. *)
Fixpoint shift_larger (fuel : nat) (arr : list Z) (i key k : Z)
  : outcome (list Z * Z) :=
  match fuel with
  | O => OutOfFuel
  | S fuel' =>
      if i <=? k then
        ak ← Py.getitem arr k;
        if key <? ak then
          v ← Py.getitem arr k;
          arr' ← Py.setitem arr (k + 1) v;
          shift_larger fuel' arr' i key (k - 1)
        else Ok (arr, k)
      else Ok (arr, k)
  end.

(** The body of the insertion loop for one [j] (abs.py 16-21, oabs.py 33-39
    and 88-93): [key = arr[j]; k = j - 1; while ...; arr[k + 1] = key]. *)
Definition insert_key (fuel : nat) (i : Z) (j : Z) (arr : list Z)
  : outcome (list Z) :=
  key ← Py.getitem arr j;
  '(arr', k) ← shift_larger fuel arr i key (j - 1);
  Py.setitem arr' (k + 1) key.

(** [for j in range(i + 1, min(i + block_size, n)): ...] *)
Definition sort_block (fuel : nat) (n block_size : Z) (i : Z) (arr : list Z)
  : outcome (list Z) :=
  Py.for_each (insert_key fuel i)
    (Py.range (i + 1) (Z.min (i + block_size) n) 1) arr.

(** Step 1: [for i in range(0, n, block_size): ...] *)
Definition sort_blocks (fuel : nat) (n block_size : Z) (arr : list Z)
  : outcome (list Z) :=
  Py.for_each (sort_block fuel n block_size) (Py.range 0 n block_size) arr.

(** [while i < n - 1 and arr[i] <= arr[i + 1]: i += 1]; returns the final
    [i]. *)
Fixpoint scan_run (fuel : nat) (arr : list Z) (n i : Z) : outcome Z :=
  match fuel with
  | O => OutOfFuel
  | S fuel' =>
      if i <? n - 1 then
        x ← Py.getitem arr i;
        y ← Py.getitem arr (i + 1);
        if x <=? y then scan_run fuel' arr n (i + 1) else Ok i
      else Ok i
  end.

(** [while i < n: start = i; <scan>; runs.append((start, i + 1)); i += 1] *)
Fixpoint detect_runs_from (scan_fuel fuel : nat) (arr : list Z) (n i : Z)
    (runs : list (Z * Z)) : outcome (list (Z * Z)) :=
  match fuel with
  | O => OutOfFuel
  | S fuel' =>
      if i <? n then
        let start := i in
        i' ← scan_run scan_fuel arr n i;
        detect_runs_from scan_fuel fuel' arr n (i' + 1)
          (runs ++ [(start, i' + 1)])
      else Ok runs
  end.

(** Step 2: [runs = []; i = 0; while i < n: ...] *)
Definition detect_runs (fuel : nat) (arr : list Z) (n : Z)
  : outcome (list (Z * Z)) :=
  detect_runs_from fuel fuel arr n 0 [].

(** [len(runs) == 1 and runs[0][0] == 0 and runs[0][1] == n]; [and]
    short-circuits, so [runs[0]] is read only when [len(runs) == 1]. *)
Definition single_full_run (runs : list (Z * Z)) (n : Z) : outcome bool :=
  if Py.len runs =? 1 then
    r ← Py.getitem runs 0;
    if r.1 =? 0 then
      r' ← Py.getitem runs 0;
      Ok (r'.2 =? n)
    else Ok false
  else Ok false.

(** [if block_indices[block_id] < block_ends[block_id]:
        heapq.heappush(heap, (arr[block_indices[block_id]], block_id))
        block_indices[block_id] += 1]
    (abs.py 46-48 and 56-58, oabs.py 66-68 and 79-81). *)
Definition push_next (arr : list Z) (block_ends : list Z) (block_id : Z)
    (st : list Heapq.item * list Z) : outcome (list Heapq.item * list Z) :=
  let '(heap, block_indices) := st in
  bi ← Py.getitem block_indices block_id;
  be ← Py.getitem block_ends block_id;
  if bi <? be then
    pos ← Py.getitem block_indices block_id;
    v ← Py.getitem arr pos;
    let heap := Heapq.heappush heap (v, block_id) in
    cur ← Py.getitem block_indices block_id;
    block_indices ← Py.setitem block_indices block_id (cur + 1);
    Ok (heap, block_indices)
  else Ok (heap, block_indices).

(** [for block_id in range(num_blocks): <push_next>] with [heap = []] and
    [block_indices = [run[0] for run in runs]]. *)
Definition init_heap (arr : list Z) (runs : list (Z * Z))
  : outcome (list Heapq.item * list Z) :=
  let block_indices := fst <$> runs in
  let block_ends := snd <$> runs in
  let num_blocks := Py.len runs in
  Py.for_each (push_next arr block_ends) (Py.range 0 num_blocks 1)
    ([], block_indices).

(** The [return] statement a call leaves through. *)
Inductive exit_point : Type :=
| ReturnTrivial    (* the guard [if not arr or len(arr) <= 1] *)
| ReturnFastPath   (* the single-run test after run detection *)
| ReturnMerged.    (* the end of the function *)

(** ** abs.py *)

Module Abs.

(** [block_size = max(32, int(math.sqrt(n)))].  [math.sqrt] is a double;
    for the lengths a list can have (below 2^52) its truncation is the
    integer square root. *)
Definition block_size (n : Z) : Z := Z.max 32 (Z.sqrt n).

(** [while heap: val, block_id = heappop(heap); result.append(val); ...] *)
Fixpoint merge_loop (fuel : nat) (arr block_ends : list Z)
    (heap : list Heapq.item) (block_indices : list Z) (result : list Z)
  : outcome (list Z) :=
  match fuel with
  | O => OutOfFuel
  | S fuel' =>
      match heap with
      | [] => Ok result
      | _ :: _ =>
          '((val, block_id), heap) ← Heapq.heappop heap;
          let result := result ++ [val] in
          '(heap, block_indices) ←
            push_next arr block_ends block_id (heap, block_indices);
          merge_loop fuel' arr block_ends heap block_indices result
      end
  end.

(** Step 3, up to the copy: the merged [result] list. *)
Definition merge_runs (fuel : nat) (arr : list Z) (runs : list (Z * Z))
  : outcome (list Z) :=
  '(heap, block_indices) ← init_heap arr runs;
  merge_loop fuel arr (snd <$> runs) heap block_indices [].

(** [for i in range(n): arr[i] = result[i]] *)
Definition copy_back (n : Z) (result arr : list Z) : outcome (list Z) :=
  Py.for_each (λ i arr, v ← Py.getitem result i; Py.setitem arr i v)
    (Py.range 0 n 1) arr.

Definition adaptive_block_sort_run (arr : list Z)
  : outcome (exit_point * list Z) :=
  if Py.len arr <=? 1 then Ok (ReturnTrivial, arr)
  else
    let n := Py.len arr in
    let fuel := S (length arr) in
    let block_size := block_size n in
    arr ← sort_blocks fuel n block_size arr;
    runs ← detect_runs fuel arr n;
    fast ← single_full_run runs n;
    if fast : bool then Ok (ReturnFastPath, arr)
    else
      result ← merge_runs fuel arr runs;
      arr ← copy_back n result arr;
      Ok (ReturnMerged, arr).

Definition adaptive_block_sort (arr : list Z) : outcome (list Z) :=
  snd <$> adaptive_block_sort_run arr.

End Abs.

(** ** oabs.py *)

Module Oabs.

Definition cache_line_bytes : Z := 64.
Definition element_size : Z := 8.
Definition elements_per_cache_line : Z := cache_line_bytes `div` element_size.

(** [block_size = max(elements_per_cache_line, int(math.sqrt(n) / 2) * 2)].
    Halving a double is exact, so [int(math.sqrt(n) / 2)] is the integer
    square root halved and rounded down. *)
Definition block_size (n : Z) : Z :=
  Z.max elements_per_cache_line ((Z.sqrt n `div` 2) * 2).

(** Step 4: [while heap: val, block_id = heappop(heap);
    arr[write_index] = val; write_index += 1; <push_next>].  The array that
    [push_next] reads is the one just written. *)
Fixpoint merge_in_place (fuel : nat) (block_ends : list Z)
    (heap : list Heapq.item) (block_indices : list Z)
    (arr : list Z) (write_index : Z) : outcome (list Z * Z) :=
  match fuel with
  | O => OutOfFuel
  | S fuel' =>
      match heap with
      | [] => Ok (arr, write_index)
      | _ :: _ =>
          '((val, block_id), heap) ← Heapq.heappop heap;
          arr ← Py.setitem arr write_index val;
          let write_index := write_index + 1 in
          '(heap, block_indices) ←
            push_next arr block_ends block_id (heap, block_indices);
          merge_in_place fuel' block_ends heap block_indices arr write_index
      end
  end.

(** Steps 3 and 4: the array and [write_index] when the merge loop exits. *)
Definition merge_phase (fuel : nat) (arr : list Z) (runs : list (Z * Z))
  : outcome (list Z * Z) :=
  '(heap, block_indices) ← init_heap arr runs;
  merge_in_place fuel (snd <$> runs) heap block_indices arr 0.

(** The body of step 5 for one [i]: [if arr[i] < arr[i - 1]: ...] *)
Definition adjust_at (fuel : nat) (i : Z) (arr : list Z) : outcome (list Z) :=
  x ← Py.getitem arr i;
  y ← Py.getitem arr (i - 1);
  if x <? y then insert_key fuel 0 i arr else Ok arr.

(** Step 5: [for i in range(write_index, n): ...] *)
Definition final_adjustment (fuel : nat) (write_index n : Z) (arr : list Z)
  : outcome (list Z) :=
  Py.for_each (adjust_at fuel) (Py.range write_index n 1) arr.

Definition optimized_adaptive_block_sort_run (arr : list Z)
  : outcome (exit_point * list Z) :=
  if Py.len arr <=? 1 then Ok (ReturnTrivial, arr)
  else
    let n := Py.len arr in
    let fuel := S (length arr) in
    let block_size := block_size n in
    arr ← sort_blocks fuel n block_size arr;
    runs ← detect_runs fuel arr n;
    fast ← single_full_run runs n;
    if fast : bool then Ok (ReturnFastPath, arr)
    else
      '(arr, write_index) ← merge_phase fuel arr runs;
      arr ← final_adjustment fuel write_index n arr;
      Ok (ReturnMerged, arr).

Definition optimized_adaptive_block_sort (arr : list Z) : outcome (list Z) :=
  snd <$> optimized_adaptive_block_sort_run arr.

End Oabs.

Definition scenario1 : list Z := [64; 34; 25; 12; 22; 11; 90; 12; 45; 33].

(** ** Vocabulary of the properties *)

(** [a[i] <= a[i + 1]] for every [i] in [[0, len(a) - 1)]. *)
Definition nondecreasing (a : list Z) : Prop :=
  ∀ (i : nat) (x y : Z), a !! i = Some x → a !! S i = Some y → x ≤ y.

(** The run [(start, end)] is a non-decreasing segment of [arr]:
    [arr[p] <= arr[p + 1]] whenever [start <= p] and [p + 1 < end]. *)
Definition run_sorted (arr : list Z) (r : Z * Z) : Prop :=
  ∀ (p x y : Z), r.1 ≤ p → p + 1 < r.2 →
    arr !! Z.to_nat p = Some x → arr !! Z.to_nat (p + 1) = Some y → x ≤ y.

(** The runs are not empty and follow each other from [lo] to [hi]: the
    first starts at [lo], each ends where the next starts, the last ends at
    [hi]. *)
Fixpoint runs_chain (lo : Z) (runs : list (Z * Z)) (hi : Z) : Prop :=
  match runs with
  | [] => lo = hi
  | r :: runs' => r.1 = lo ∧ r.1 < r.2 ∧ runs_chain r.2 runs' hi
  end.

(** The index [p] lies in the run [(start, end)]. *)
Definition in_run (p : Z) (r : Z * Z) : Prop := r.1 ≤ p < r.2.

(** Python's [arr[s:e]] for [0 <= s]. *)
Definition slice (arr : list Z) (s e : Z) : list Z :=
  take (Z.to_nat (e - s)) (drop (Z.to_nat s) arr).

(** The elements of each block not read yet: [arr[block_indices[b]:block_ends[b]]]
    for every block [b]. *)
Definition pending (arr : list Z) (block_indices block_ends : list Z)
  : list (list Z) :=
  zip_with (slice arr) block_indices block_ends.

(** The reference sort: Python's [sorted], as stdpp's merge sort. *)
Definition reference_sort (l : list Z) : list Z := merge_sort Z.le l.

(** The run list partitions the index range [[0, n)]: the end of a run is
    the start of the next, no index lies in two runs, and the indices that
    lie in some run are those of [[0, n)]. *)
Record runs_partition (runs : list (Z * Z)) (n : Z) : Prop := {
  rp_adjacent : ∀ (i : nat) (r r' : Z * Z),
      runs !! i = Some r → runs !! S i = Some r' → r.2 = r'.1;
  rp_disjoint : ∀ (i j : nat) (r r' : Z * Z) (p : Z),
      runs !! i = Some r → runs !! j = Some r' →
      in_run p r → in_run p r' → i = j;
  rp_cover : ∀ p : Z, 0 ≤ p < n ↔ ∃ r, r ∈ runs ∧ in_run p r
}.

(** The block size in the words of the specification:
    [max(min_block, floor(sqrt(n)))]. *)
Definition spec_block_size (min_block n : Z) : Z := Z.max min_block (Z.sqrt n).

(** Inputs used below. *)
Definition descending_tail : list Z := [3; 4; 5; 6; 7; 8; 9; 10; 1; 2].
Definition small_last : list Z := [2; 3; 4; 5; 6; 7; 8; 9; 1].

(** ** Invariants of the merge loops *)

(** What both merges keep true of the heap and of [block_indices], whatever
    the values in the array are: every cursor is inside its run, every pair of
    the heap names a block, and every block of [D] with cells left has its
    pair in the heap. *)
Record cursor_inv (runs : list (Z * Z)) (D : nat → Prop)
    (heap : list Heapq.item) (block_indices : list Z) : Prop := {
  ci_cursors : Forall2 (λ r c, r.1 ≤ c ≤ r.2) runs block_indices;
  ci_ids : Forall (λ it : Heapq.item,
                     ∃ bn : nat, it.2 = Z.of_nat bn ∧ (bn < length runs)%nat)
             heap;
  ci_entry : ∀ (bn : nat) (r : Z * Z) (c : Z),
      D bn → runs !! bn = Some r → block_indices !! bn = Some c → c < r.2 →
      ∃ v, (v, Z.of_nat bn) ∈ heap
}.

(** abs.py: the cursors are consistent, [result], the heap and the unread
    parts of the runs hold the elements of [arr], every pair of the heap is
    below the unread part of its run, and [result] is in order and below the
    heap. *)
Record merge_inv (arr : list Z) (runs : list (Z * Z)) (D : nat → Prop)
    (heap : list Heapq.item) (block_indices : list Z) (result : list Z)
  : Prop := {
  mi_cursor : cursor_inv runs D heap block_indices;
  mi_perm :
    result ++ (fst <$> heap)
      ++ concat (pending arr block_indices (snd <$> runs)) ≡ₚ arr;
  mi_bound : ∀ (v : Z) (bn : nat) (r : Z * Z) (c : Z),
      (v, Z.of_nat bn) ∈ heap → runs !! bn = Some r →
      block_indices !! bn = Some c → Forall (Z.le v) (slice arr c r.2);
  mi_result : ∀ (x : Z) (it : Heapq.item),
      x ∈ result → it ∈ heap → x ≤ it.1;
  mi_sorted : StronglySorted Z.le result
}.

(** oabs.py: the merge writes into the array it reads, so the invariant only
    counts.  [arr0] is the array as the merge phase receives it; its slices
    measure how many cells each block has left. *)
Record place_inv (arr0 : list Z) (runs : list (Z * Z)) (n : Z)
    (D : nat → Prop) (heap : list Heapq.item) (block_indices : list Z)
    (arr : list Z) (write_index : Z) : Prop := {
  pi_cursor : cursor_inv runs D heap block_indices;
  pi_len : Py.len arr = n;
  pi_write : 0 ≤ write_index;
  pi_count :
    write_index + Z.of_nat (length heap)
      + Z.of_nat (length (concat (pending arr0 block_indices (snd <$> runs))))
    = n
}.

(** ** benchmark.py: the sorts it compares with, and its check *)

Module Benchmark.



(** The loop of [merge]:
    [while i < len(left) and j < len(right): ...], then
    [return result + left[i:] + right[j:]]. *)
Fixpoint merge_loop (fuel : nat) (left right : list Z) (i j : Z)
    (result : list Z) : outcome (list Z) :=
  match fuel with
  | O => OutOfFuel
  | S fuel' =>
      if (i <? Py.len left) && (j <? Py.len right) then
        x ← Py.getitem left i;
        y ← Py.getitem right j;
        if x <=? y then
          v ← Py.getitem left i;
          merge_loop fuel' left right (i + 1) j (result ++ [v])
        else
          v ← Py.getitem right j;
          merge_loop fuel' left right i (j + 1) (result ++ [v])
      else
        Ok ((result ++ slice left i (Py.len left))
              ++ slice right j (Py.len right))
  end.

(** [merge(left, right)]: [result = []; i = j = 0; ...] *)
Definition merge (left right : list Z) : outcome (list Z) :=
  merge_loop (S (length left + length right)) left right 0 0 [].

(** [mergesort], with the depth of the recursion bounded by [fuel]:
    [mid = len(arr) // 2; left = mergesort(arr[:mid]);
     right = mergesort(arr[mid:]); return merge(left, right)]. *)
Fixpoint mergesort_rec (fuel : nat) (arr : list Z) : outcome (list Z) :=
  match fuel with
  | O => OutOfFuel
  | S fuel' =>
      if Py.len arr <=? 1 then Ok arr
      else
        let mid := Py.len arr `div` 2 in
        left ← mergesort_rec fuel' (slice arr 0 mid);
        right ← mergesort_rec fuel' (slice arr mid (Py.len arr));
        merge left right
  end.

Definition mergesort (arr : list Z) : outcome (list Z) :=
  mergesort_rec (S (length arr)) arr.

(** [insertion_sort]: [for i in range(1, len(arr)): key = arr[i]; j = i - 1;
    while j >= 0 and arr[j] > key: ...; arr[j + 1] = key].  The body is the
    insertion of abs.py with the lower bound 0. *)
Definition insertion_sort (arr : list Z) : outcome (list Z) :=
  Py.for_each (insert_key (S (length arr)) 0) (Py.range 1 (Py.len arr) 1) arr.

(** [all(arr[i] <= arr[i + 1] for i in ...)]: [all] stops at the first
    comparison that fails. *)
Fixpoint all_adjacent_le (arr : list Z) (indices : list Z) : outcome bool :=
  match indices with
  | [] => Ok true
  | i :: indices' =>
      x ← Py.getitem arr i;
      y ← Py.getitem arr (i + 1);
      if x <=? y then all_adjacent_le arr indices' else Ok false
  end.

(** [verify_sorted(arr)], over [range(len(arr) - 1)]. *)
Definition verify_sorted (arr : list Z) : outcome bool :=
  all_adjacent_le arr (Py.range 0 (Py.len arr - 1) 1).


End Benchmark.

(** ** Vocabulary of the further properties *)

(** The state of the insertion loop at [k], for the insertion of [key] at
    [j] into [orig]: the cells up to [k] and after [j] are those of [orig],
    the cells from [k + 2] to [j] hold the cells of [orig] one place to their
    left, and these are above [key]. *)
Definition shifted (orig cur : list Z) (k j key : Z) : Prop :=
  Py.len cur = Py.len orig
  ∧ (∀ p, 0 ≤ p → p ≤ k ∨ j < p →
          cur !! Z.to_nat p = orig !! Z.to_nat p)
  ∧ (∀ p, k + 1 < p ≤ j → cur !! Z.to_nat p = orig !! Z.to_nat (p - 1))
  ∧ (∀ p v, k + 1 < p ≤ j → cur !! Z.to_nat p = Some v → key < v).

(** [a] and [a'] hold the same cells outside [[lo, hi)]. *)
Definition same_outside (a a' : list Z) (lo hi : Z) : Prop :=
  ∀ p, 0 ≤ p → p < lo ∨ hi ≤ p → a' !! Z.to_nat p = a !! Z.to_nat p.

(** The block that starts at [b]: [[b, min(b + block_size, n))]. *)
Definition block_end (n block_size b : Z) : Z := Z.min (b + block_size) n.

(** The run ends at the end of the array or at a descent. *)
Definition run_maximal (arr : list Z) (n : Z) (r : Z * Z) : Prop :=
  r.2 < n →
  ∃ x y, arr !! Z.to_nat (r.2 - 1) = Some x ∧ arr !! Z.to_nat r.2 = Some y
         ∧ y < x.

(** ** Basic facts: the monad, subscripts, ranges and [for] loops *)

Lemma bind_Ok {A B} (a : A) (f : A → outcome B) : (Ok a ≫= f) = f a.
Proof. reflexivity. Qed.

Lemma len_nonneg {A} (a : list A) : 0 ≤ Py.len a.
Proof. unfold Py.len. lia. Qed.

Lemma getitem_Some {A} (a : list A) (i : Z) (v : A) :
  0 ≤ i → a !! Z.to_nat i = Some v → Py.getitem a i = Ok v.
Proof.
  intros Hi Hv. unfold Py.getitem.
  destruct (Z.leb_spec 0 i); [|lia]. by rewrite Hv.
Qed.

Lemma getitem_in_bounds {A} (a : list A) (i : Z) :
  0 ≤ i < Py.len a → ∃ v, a !! Z.to_nat i = Some v ∧ Py.getitem a i = Ok v.
Proof.
  intros Hi. destruct (lookup_lt_is_Some_2 a (Z.to_nat i)) as [v Hv].
  { unfold Py.len in Hi. lia. }
  exists v. split; [done|]. apply getitem_Some; [lia|done].
Qed.

Lemma setitem_in_bounds {A} (a : list A) (i : Z) (v : A) :
  0 ≤ i < Py.len a → Py.setitem a i v = Ok (<[Z.to_nat i := v]> a).
Proof.
  intros Hi. unfold Py.setitem.
  destruct (Z.leb_spec 0 i); [|lia].
  destruct (Z.ltb_spec i (Py.len a)); [done|lia].
Qed.

(** A subscript that returns was in range, and a sequence of steps that
    returns has returned from every step. *)
Lemma getitem_Ok_inv {A} (a : list A) (i : Z) (v : A) :
  Py.getitem a i = Ok v → 0 ≤ i < Py.len a ∧ a !! Z.to_nat i = Some v.
Proof.
  unfold Py.getitem, Py.len. destruct (Z.leb_spec 0 i); [|done].
  destruct (a !! Z.to_nat i) as [w|] eqn:Hw; [|done].
  intros [= ->]. apply lookup_lt_Some in Hw as Hlt. split; [lia|done].
Qed.

Lemma setitem_Ok_inv {A} (a a' : list A) (i : Z) (v : A) :
  Py.setitem a i v = Ok a' →
  0 ≤ i < Py.len a ∧ a' = <[Z.to_nat i := v]> a.
Proof.
  unfold Py.setitem. destruct (Z.leb_spec 0 i); [|done].
  destruct (Z.ltb_spec i (Py.len a)); [|done].
  simpl. intros [= <-]. split; [lia|done].
Qed.

Lemma bind_Ok_inv {A B} (m : outcome A) (f : A → outcome B) (b : B) :
  (m ≫= f) = Ok b → ∃ a, m = Ok a ∧ f a = Ok b.
Proof. destruct m as [a| |]; [|done..]. intros Hb. by exists a. Qed.

Lemma len_insert {A} (a : list A) (i : nat) (v : A) :
  Py.len (<[i := v]> a) = Py.len a.
Proof. unfold Py.len. by rewrite length_insert. Qed.

Lemma range_nil (start stop step : Z) :
  0 < step → stop ≤ start → Py.range start stop step = [].
Proof.
  intros Hs Hle. unfold Py.range.
  replace (Z.to_nat _) with 0%nat; [done|].
  assert ((stop - start + step - 1) `div` step ≤ 0); [|lia].
  apply Z.lt_succ_r, Z.div_lt_upper_bound; lia.
Qed.

Lemma range_cons (start stop step : Z) :
  0 < step → start < stop →
  Py.range start stop step = start :: Py.range (start + step) stop step.
Proof.
  intros Hs Hlt. unfold Py.range.
  replace (stop - start + step - 1) with
    ((stop - (start + step) + step - 1) + 1 * step) by lia.
  rewrite Z.div_add by lia.
  assert (0 ≤ (stop - (start + step) + step - 1) `div` step).
  { apply Z.div_pos; lia. }
  replace (Z.to_nat (_ + 1)) with
    (S (Z.to_nat ((stop - (start + step) + step - 1) `div` step))) by lia.
  cbn [seq fmap list_fmap]. f_equal; [lia|].
  rewrite <- fmap_S_seq, <- list_fmap_compose.
  apply list_fmap_ext. intros _ t _. simpl. lia.
Qed.

Lemma elem_of_range (start stop step x : Z) :
  0 < step → x ∈ Py.range start stop step → start ≤ x < stop.
Proof.
  intros Hs. unfold Py.range. rewrite list_elem_of_fmap.
  intros (t & -> & Ht). apply elem_of_seq in Ht.
  assert (Z.of_nat t + 1 ≤ (stop - start + step - 1) `div` step) by lia.
  assert (step * ((stop - start + step - 1) `div` step)
          ≤ stop - start + step - 1) by (apply Z.mul_div_le; lia).
  assert (step * (Z.of_nat t + 1)
          ≤ step * ((stop - start + step - 1) `div` step))
    by (apply Z.mul_le_mono_nonneg_l; lia).
  assert (0 ≤ Z.of_nat t * step) by (apply Z.mul_nonneg_nonneg; lia).
  lia.
Qed.

(** A loop invariant that does not depend on the loop variable. *)
Lemma for_each_invariant {S : Type} (P : S → Prop)
    (body : Z → S → outcome S) (xs : list Z) (s : S) :
  P s →
  (∀ x s0, x ∈ xs → P s0 → ∃ s1, body x s0 = Ok s1 ∧ P s1) →
  ∃ s', Py.for_each body xs s = Ok s' ∧ P s'.
Proof.
  revert s. induction xs as [|x xs IH]; intros s Hs Hbody; simpl.
  - by exists s.
  - destruct (Hbody x s) as (s1 & -> & Hs1); [left|done|].
    rewrite bind_Ok. apply IH; [done|].
    intros y s0 Hy. apply Hbody. by right.
Qed.

(** A loop over [range(lo, hi)] with an invariant indexed by the loop
    variable. *)
Lemma for_each_range_invariant {S : Type} (P : Z → S → Prop)
    (body : Z → S → outcome S) (lo hi : Z) (s : S) :
  lo ≤ hi → P lo s →
  (∀ x s0, lo ≤ x < hi → P x s0 → ∃ s1, body x s0 = Ok s1 ∧ P (x + 1) s1) →
  ∃ s', Py.for_each body (Py.range lo hi 1) s = Ok s' ∧ P hi s'.
Proof.
  intros Hle. remember (Z.to_nat (hi - lo)) as d eqn:Hd.
  revert lo s Hle Hd. induction d as [|d IH]; intros lo s Hle Hd Hs Hbody.
  - rewrite range_nil by lia. simpl. exists s. by replace hi with lo by lia.
  - rewrite range_cons by lia. simpl.
    destruct (Hbody lo s) as (s1 & -> & Hs1); [lia|done|].
    rewrite bind_Ok. apply IH; [lia|lia|done|].
    intros x s0 Hx. apply Hbody. lia.
Qed.

(** ** Step 1: the insertion sort of the blocks *)

(** Writing [x] one cell to the right of its own cell and [u] over it leaves
    the same elements as writing [u] one cell to the right. *)
Lemma insert_shift_perm (a : list Z) (k : nat) (x u : Z) :
  a !! k = Some x → (S k < length a)%nat →
  <[k := u]> (<[S k := x]> a) ≡ₚ <[S k := u]> a.
Proof.
  revert k. induction a as [|a0 a IH]; intros k Hk Hlen; [done|].
  destruct k as [|k]; simpl in *.
  - destruct a as [|a1 a]; simpl in *; [lia|].
    inversion Hk; subst. apply perm_swap.
  - constructor. apply IH; [done|lia].
Qed.

Lemma shift_larger_spec (fuel : nat) (arr : list Z) (i key k : Z) :
  0 ≤ i → i - 1 ≤ k → k + 1 < Py.len arr → k - i + 1 < Z.of_nat fuel →
  ∃ arr' k',
    shift_larger fuel arr i key k = Ok (arr', k')
    ∧ Py.len arr' = Py.len arr
    ∧ i - 1 ≤ k' ≤ k
    ∧ <[Z.to_nat (k' + 1) := key]> arr' ≡ₚ <[Z.to_nat (k + 1) := key]> arr.
Proof.
  revert arr k. induction fuel as [|fuel IH]; intros arr k Hi Hk Hlen Hfuel;
    [lia|].
  simpl. destruct (Z.leb_spec i k); [|by exists arr, k; repeat split; try lia].
  destruct (getitem_in_bounds arr k) as (ak & Hak & ->); [lia|].
  rewrite bind_Ok.
  destruct (Z.ltb_spec key ak); [|by exists arr, k; repeat split; try lia].
  rewrite bind_Ok, setitem_in_bounds, bind_Ok by lia.
  destruct (IH (<[Z.to_nat (k + 1) := ak]> arr) (k - 1))
    as (arr' & k' & -> & Hlen' & Hk' & Hperm);
    [lia|lia|rewrite len_insert; lia|lia|].
  exists arr', k'. split; [done|]. rewrite len_insert in Hlen'.
  split; [done|]. split; [lia|].
  rewrite Hperm. replace (k - 1 + 1) with k by lia.
  replace (Z.to_nat (k + 1)) with (S (Z.to_nat k)) by lia.
  apply insert_shift_perm; [done|]. unfold Py.len in Hlen. lia.
Qed.

Lemma insert_key_spec (fuel : nat) (i j : Z) (arr : list Z) :
  0 ≤ i < j → j < Py.len arr → j - i < Z.of_nat fuel →
  ∃ arr', insert_key fuel i j arr = Ok arr'
    ∧ Py.len arr' = Py.len arr ∧ arr' ≡ₚ arr.
Proof.
  intros Hi Hj Hfuel. unfold insert_key.
  destruct (getitem_in_bounds arr j) as (key & Hkey & ->); [lia|].
  rewrite bind_Ok.
  destruct (shift_larger_spec fuel arr i key (j - 1))
    as (arr' & k' & -> & Hlen & Hk' & Hperm); [lia..|].
  rewrite bind_Ok, setitem_in_bounds by lia.
  eexists. split; [done|]. rewrite len_insert. split; [done|].
  rewrite Hperm. replace (j - 1 + 1) with j by lia.
  by rewrite list_insert_id.
Qed.

(** On an array that is already in order the loop does not shift anything and
    [arr[k + 1] = key] writes [arr[j]] back to its own cell. *)
Lemma insert_key_nondecreasing (fuel : nat) (i j : Z) (arr : list Z) :
  nondecreasing arr → 0 ≤ i < j → j < Py.len arr → (0 < fuel)%nat →
  insert_key fuel i j arr = Ok arr.
Proof.
  intros Hsorted Hi Hj Hfuel. unfold insert_key.
  destruct (getitem_in_bounds arr j) as (key & Hkey & ->); [lia|].
  rewrite bind_Ok. destruct fuel as [|fuel]; [lia|]. simpl.
  destruct (Z.leb_spec i (j - 1)); [|lia].
  destruct (getitem_in_bounds arr (j - 1)) as (ak & Hak & ->); [lia|].
  rewrite bind_Ok.
  assert (ak ≤ key) as Hle.
  { apply (Hsorted (Z.to_nat (j - 1))); [done|].
    by replace (S (Z.to_nat (j - 1))) with (Z.to_nat j) by lia. }
  destruct (Z.ltb_spec key ak); [lia|].
  rewrite bind_Ok, setitem_in_bounds by lia.
  replace (j - 1 + 1) with j by lia. by rewrite list_insert_id.
Qed.

Lemma sort_block_spec (fuel : nat) (n block_size i : Z) (arr : list Z) :
  0 ≤ i → n = Py.len arr → n < Z.of_nat fuel →
  ∃ arr', sort_block fuel n block_size i arr = Ok arr'
    ∧ Py.len arr' = Py.len arr ∧ arr' ≡ₚ arr.
Proof.
  intros Hi Hn Hfuel. unfold sort_block.
  apply (for_each_invariant (λ a, Py.len a = Py.len arr ∧ a ≡ₚ arr));
    [done|].
  intros j a Hj [Hlen Hperm]. apply elem_of_range in Hj; [|lia].
  destruct (insert_key_spec fuel i j a) as (a' & -> & Hlen' & Hperm');
    [lia..|].
  exists a'. split; [done|]. split; [congruence|by rewrite Hperm'].
Qed.

Lemma sort_blocks_spec (fuel : nat) (n block_size : Z) (arr : list Z) :
  0 < block_size → n = Py.len arr → n < Z.of_nat fuel →
  ∃ arr', sort_blocks fuel n block_size arr = Ok arr'
    ∧ Py.len arr' = Py.len arr ∧ arr' ≡ₚ arr.
Proof.
  intros Hbs Hn Hfuel. unfold sort_blocks.
  apply (for_each_invariant (λ a, Py.len a = Py.len arr ∧ a ≡ₚ arr));
    [done|].
  intros i a Hi [Hlen Hperm]. apply elem_of_range in Hi; [|lia].
  destruct (sort_block_spec fuel n block_size i a) as (a' & -> & Hlen' & Hperm');
    [lia..|].
  exists a'. split; [done|]. split; [congruence|by rewrite Hperm'].
Qed.

Lemma sort_blocks_nondecreasing (fuel : nat) (n block_size : Z) (arr : list Z) :
  nondecreasing arr → 0 < block_size → n = Py.len arr → (0 < fuel)%nat →
  sort_blocks fuel n block_size arr = Ok arr.
Proof.
  intros Hsorted Hbs Hn Hfuel. unfold sort_blocks.
  destruct (for_each_invariant (λ a, a = arr)
              (sort_block fuel n block_size) (Py.range 0 n block_size) arr)
    as (a' & -> & ->); [done| |done].
  intros i a Hi ->. apply elem_of_range in Hi; [|lia].
  exists arr. split; [|done]. unfold sort_block.
  destruct (for_each_invariant (λ a, a = arr) (insert_key fuel i)
              (Py.range (i + 1) (Z.min (i + block_size) n) 1) arr)
    as (a' & -> & ->); [done| |done].
  intros j a Hj ->. apply elem_of_range in Hj; [|lia].
  exists arr. split; [|done]. apply insert_key_nondecreasing; [done|lia..].
Qed.

(** ** Step 2: run detection *)

Lemma scan_run_spec (fuel : nat) (arr : list Z) (n i : Z) :
  n = Py.len arr → 0 ≤ i < n → n - i ≤ Z.of_nat fuel →
  ∃ i', scan_run fuel arr n i = Ok i'
    ∧ i ≤ i' < n
    ∧ run_sorted arr (i, i' + 1)
    ∧ (i' + 1 < n → ∃ x y, arr !! Z.to_nat i' = Some x
                           ∧ arr !! Z.to_nat (i' + 1) = Some y ∧ y < x).
Proof.
  intros Hn. revert i. induction fuel as [|fuel IH]; intros i Hi Hfuel; [lia|].
  simpl. destruct (Z.ltb_spec i (n - 1)); cycle 1.
  { exists i. split; [done|]. split; [lia|]. split; [|lia].
    intros p x y; simpl; lia. }
  destruct (getitem_in_bounds arr i) as (x & Hx & ->); [lia|].
  destruct (getitem_in_bounds arr (i + 1)) as (y & Hy & ->); [lia|].
  rewrite !bind_Ok. destruct (Z.leb_spec x y); cycle 1.
  { exists i. split; [done|]. split; [lia|]. split.
    - intros p x' y'; simpl; lia.
    - intros _. exists x, y. repeat split; [done|done|lia]. }
  destruct (IH (i + 1)) as (i' & -> & Hi' & Hrun & Hmax); [lia..|].
  exists i'. split; [done|]. split; [lia|]. split; [|done].
  intros p x' y'; simpl; intros Hp1 Hp2 Hx' Hy'.
  destruct (decide (p = i)) as [->|].
  - congruence.
  - apply (Hrun p x' y'); simpl; [lia|lia|done|done].
Qed.

Lemma runs_chain_snoc (lo mid hi : Z) (runs : list (Z * Z)) :
  runs_chain lo runs mid → mid < hi → runs_chain lo (runs ++ [(mid, hi)]) hi.
Proof.
  revert lo. induction runs as [|r runs IH]; intros lo; simpl.
  - intros -> ?. done.
  - intros (? & ? & ?) ?. auto.
Qed.

Lemma detect_runs_from_spec (scan_fuel fuel : nat) (arr : list Z) (n i : Z)
    (runs : list (Z * Z)) :
  n = Py.len arr → 0 ≤ i ≤ n →
  n ≤ Z.of_nat scan_fuel → n - i + 1 ≤ Z.of_nat fuel →
  runs_chain 0 runs i → Forall (run_sorted arr) runs →
  ∃ runs', detect_runs_from scan_fuel fuel arr n i runs = Ok runs'
    ∧ runs_chain 0 runs' n ∧ Forall (run_sorted arr) runs'.
Proof.
  intros Hn Hi Hsf. revert i runs Hi.
  induction fuel as [|fuel IH]; intros i runs Hi Hfuel Hchain Hsorted; [lia|].
  simpl. destruct (Z.ltb_spec i n); cycle 1.
  { exists runs. split; [done|]. split; [|done]. by replace n with i by lia. }
  destruct (scan_run_spec scan_fuel arr n i) as (i' & -> & Hi' & Hrun & _);
    [done|lia|lia|].
  rewrite bind_Ok. apply IH; [lia|lia| |].
  - apply runs_chain_snoc; [done|lia].
  - apply Forall_app. split; [done|]. by constructor.
Qed.

Lemma detect_runs_spec (fuel : nat) (arr : list Z) (n : Z) :
  n = Py.len arr → n < Z.of_nat fuel →
  ∃ runs, detect_runs fuel arr n = Ok runs
    ∧ runs_chain 0 runs n ∧ Forall (run_sorted arr) runs.
Proof.
  intros Hn Hfuel. unfold detect_runs.
  apply detect_runs_from_spec; [done| |lia|lia|done|done].
  pose proof (len_nonneg arr). lia.
Qed.

(** On an array in order the scan runs to the last index. *)
Lemma scan_run_nondecreasing (fuel : nat) (arr : list Z) (n i : Z) :
  nondecreasing arr → n = Py.len arr → 0 ≤ i < n → n - i ≤ Z.of_nat fuel →
  scan_run fuel arr n i = Ok (n - 1).
Proof.
  intros Hsorted Hn Hi Hfuel.
  destruct (scan_run_spec fuel arr n i) as (i' & -> & Hi' & _ & Hmax);
    [done..|].
  destruct (decide (i' + 1 < n)) as [Hlt|]; [|f_equal; lia].
  destruct (Hmax Hlt) as (x & y & Hx & Hy & Hyx).
  assert (x ≤ y); [|lia].
  apply (Hsorted (Z.to_nat i')); [done|].
  by replace (S (Z.to_nat i')) with (Z.to_nat (i' + 1)) by lia.
Qed.

Lemma detect_runs_nondecreasing (fuel : nat) (arr : list Z) (n : Z) :
  nondecreasing arr → n = Py.len arr → 0 < n → n < Z.of_nat fuel →
  detect_runs fuel arr n = Ok [(0, n)].
Proof.
  intros Hsorted Hn Hpos Hfuel. unfold detect_runs.
  destruct fuel as [|[|fuel]]; [lia|lia|].
  cbn [detect_runs_from]. destruct (Z.ltb_spec 0 n); [|lia].
  rewrite (scan_run_nondecreasing _ arr n 0) by (done || lia).
  rewrite bind_Ok. replace (n - 1 + 1) with n by lia.
  by rewrite Z.ltb_irrefl.
Qed.

(** ** Slices and chains of runs *)

Lemma slice_empty (arr : list Z) (s e : Z) : e ≤ s → slice arr s e = [].
Proof. intros. unfold slice. by replace (Z.to_nat (e - s)) with 0%nat by lia. Qed.

Lemma slice_cons (arr : list Z) (s e v : Z) :
  0 ≤ s < e → arr !! Z.to_nat s = Some v →
  slice arr s e = v :: slice arr (s + 1) e.
Proof.
  intros Hs Hv. unfold slice.
  replace (Z.to_nat (e - s)) with (S (Z.to_nat (e - (s + 1)))) by lia.
  replace (Z.to_nat (s + 1)) with (S (Z.to_nat s)) by lia.
  by rewrite (drop_S _ _ _ Hv).
Qed.

Lemma slice_app (arr : list Z) (s m e : Z) :
  0 ≤ s ≤ m → m ≤ e → slice arr s m ++ slice arr m e = slice arr s e.
Proof.
  intros Hs He. unfold slice.
  replace (Z.to_nat (e - s)) with (Z.to_nat (m - s) + Z.to_nat (e - m))%nat
    by lia.
  rewrite <- take_take_drop, drop_drop.
  by replace (Z.to_nat s + Z.to_nat (m - s))%nat with (Z.to_nat m) by lia.
Qed.

Lemma slice_all (arr : list Z) : slice arr 0 (Py.len arr) = arr.
Proof.
  unfold slice, Py.len. rewrite Z.sub_0_r, Nat2Z.id. simpl.
  by rewrite drop_0, firstn_all.
Qed.

Lemma elem_of_slice (arr : list Z) (s e x : Z) :
  0 ≤ s → x ∈ slice arr s e →
  ∃ p, s ≤ p < e ∧ arr !! Z.to_nat p = Some x.
Proof.
  intros Hs. unfold slice. rewrite list_elem_of_lookup.
  intros (t & Ht). apply lookup_take_Some in Ht as [Ht Hlt].
  rewrite lookup_drop in Ht. exists (s + Z.of_nat t). split; [lia|].
  by replace (Z.to_nat (s + Z.of_nat t)) with (Z.to_nat s + t)%nat by lia.
Qed.

Lemma runs_chain_le (lo hi : Z) (runs : list (Z * Z)) :
  runs_chain lo runs hi → lo ≤ hi.
Proof.
  revert lo. induction runs as [|r runs IH]; intros lo; simpl; [lia|].
  intros (? & ? & Hrest). apply IH in Hrest. lia.
Qed.

Lemma runs_chain_lookup (lo hi : Z) (runs : list (Z * Z)) (bn : nat)
    (r : Z * Z) :
  runs_chain lo runs hi → runs !! bn = Some r → lo ≤ r.1 ∧ r.1 < r.2 ∧ r.2 ≤ hi.
Proof.
  revert lo bn. induction runs as [|r0 runs IH]; intros lo bn; simpl; [done|].
  intros (? & ? & Hrest) Hbn. destruct bn as [|bn]; simpl in Hbn.
  - inversion Hbn; subst. apply runs_chain_le in Hrest. lia.
  - destruct (IH _ _ Hrest Hbn). lia.
Qed.

(** Every index of [[lo, hi)] lies in exactly one run. *)
Lemma runs_chain_cover (lo hi : Z) (runs : list (Z * Z)) (p : Z) :
  runs_chain lo runs hi → lo ≤ p < hi →
  ∃ (bn : nat) (r : Z * Z), runs !! bn = Some r ∧ in_run p r
    ∧ ∀ (bn' : nat) (r' : Z * Z),
        runs !! bn' = Some r' → in_run p r' → bn' = bn.
Proof.
  revert lo. induction runs as [|r0 runs IH]; intros lo; simpl; [lia|].
  intros (Hlo & Hne & Hrest) Hp. destruct (decide (p < r0.2)) as [Hlt|Hge].
  - exists 0%nat, r0. split; [done|]. split; [unfold in_run; lia|].
    intros [|bn'] r' Hr' Hin; [done|]. simpl in Hr'.
    destruct (runs_chain_lookup _ _ _ _ _ Hrest Hr'). unfold in_run in Hin. lia.
  - destruct (IH _ Hrest) as (bn & r & Hr & Hin & Huniq); [lia|].
    exists (S bn), r. split; [done|]. split; [done|].
    intros [|bn'] r' Hr' Hin'; simpl in Hr'.
    + inversion Hr'; subst. unfold in_run in Hin'. lia.
    + f_equal. by apply (Huniq bn' r').
Qed.

(** The runs cut the array into consecutive slices. *)
Lemma runs_chain_concat (arr : list Z) (lo hi : Z) (runs : list (Z * Z)) :
  0 ≤ lo → runs_chain lo runs hi →
  concat (pending arr (fst <$> runs) (snd <$> runs)) = slice arr lo hi.
Proof.
  unfold pending. revert lo.
  induction runs as [|r runs IH]; intros lo Hlo; cbn [runs_chain].
  - intros ->. by rewrite slice_empty.
  - intros (Hr & Hne & Hrest). rewrite !fmap_cons. cbn [zip_with concat].
    rewrite (IH r.2) by (done || lia).
    rewrite Hr. apply slice_app; [lia|]. apply runs_chain_le in Hrest. lia.
Qed.

(** Within a run the order holds between any two indices, not only between
    neighbours. *)
Lemma run_sorted_le (arr : list Z) (r : Z * Z) (p q x y : Z) :
  run_sorted arr r → 0 ≤ r.1 → r.2 ≤ Py.len arr →
  r.1 ≤ p → p ≤ q → q < r.2 →
  arr !! Z.to_nat p = Some x → arr !! Z.to_nat q = Some y → x ≤ y.
Proof.
  intros Hrun Hlo Hhi Hp Hpq Hq Hx.
  remember (Z.to_nat (q - p)) as d eqn:Hd. revert q y Hpq Hq Hd.
  induction d as [|d IH]; intros q y Hpq Hq Hd Hy.
  - replace q with p in Hy by lia. assert (x = y) by congruence. lia.
  - destruct (getitem_in_bounds arr (q - 1)) as (z & Hz & _); [lia|].
    assert (x ≤ z) by (apply (IH (q - 1)); (done || lia)).
    assert (z ≤ y); [|lia].
    apply (Hrun (q - 1)); [lia|lia|done|].
    by replace (q - 1 + 1) with q by lia.
Qed.

Lemma run_sorted_slice (arr : list Z) (r : Z * Z) (c v : Z) :
  run_sorted arr r → 0 ≤ r.1 → r.2 ≤ Py.len arr → r.1 ≤ c →
  arr !! Z.to_nat c = Some v → Forall (Z.le v) (slice arr (c + 1) r.2).
Proof.
  intros Hrun Hlo Hhi Hc Hv. apply Forall_forall. intros x Hx.
  apply elem_of_slice in Hx as (q & Hq & Hxq); [|lia].
  apply (run_sorted_le arr r c q); (done || lia).
Qed.

(** ** The heap *)

Lemma item_le_fst (x y : Heapq.item) : Heapq.item_le x y = true → x.1 ≤ y.1.
Proof. unfold Heapq.item_le. lia. Qed.

Lemma item_le_false_fst (x y : Heapq.item) :
  Heapq.item_le x y = false → y.1 ≤ x.1.
Proof. unfold Heapq.item_le. lia. Qed.

Lemma item_le_iff (x y : Heapq.item) :
  Heapq.item_le x y = true ↔ x.1 < y.1 ∨ (x.1 = y.1 ∧ x.2 ≤ y.2).
Proof. unfold Heapq.item_le. lia. Qed.

(** [pop_min] returns a pair that is below every pair it leaves, in the
    order of tuples. *)
Lemma pop_min_least (x m : Heapq.item) (heap rest : list Heapq.item) :
  Heapq.pop_min x heap = (m, rest) →
  Heapq.item_le m x = true ∧ Forall (λ y, Heapq.item_le m y = true) rest.
Proof.
  revert x m rest. induction heap as [|y heap IH]; intros x m rest; simpl.
  - intros [= <- <-]. split; [apply item_le_iff; lia|done].
  - destruct (Heapq.item_le x y) eqn:Hxy.
    + destruct (Heapq.pop_min x heap) as [m' rest'] eqn:Hpop.
      intros [= <- <-]. destruct (IH _ _ _ Hpop) as [Hle Hall].
      split; [done|]. constructor; [|done].
      apply item_le_iff in Hxy, Hle. apply item_le_iff. lia.
    + destruct (Heapq.pop_min y heap) as [m' rest'] eqn:Hpop.
      intros [= <- <-]. destruct (IH _ _ _ Hpop) as [Hle Hall].
      assert (Heapq.item_le y x = true) as Hyx.
      { apply item_le_iff. apply not_true_iff_false in Hxy.
        rewrite item_le_iff in Hxy. lia. }
      assert (Heapq.item_le m' x = true) as Hmx.
      { apply item_le_iff in Hyx, Hle. apply item_le_iff. lia. }
      split; [done|]. by constructor.
Qed.

Lemma pop_min_spec (x m : Heapq.item) (heap rest : list Heapq.item) :
  Heapq.pop_min x heap = (m, rest) →
  x :: heap ≡ₚ m :: rest ∧ m.1 ≤ x.1 ∧ Forall (λ y, m.1 ≤ y.1) rest.
Proof.
  revert x m rest. induction heap as [|y heap IH]; intros x m rest; simpl.
  - intros [= <- <-]. split; [done|]. split; [lia|done].
  - destruct (Heapq.item_le x y) eqn:Hxy.
    + destruct (Heapq.pop_min x heap) as [m' rest'] eqn:Hpop.
      intros [= <- <-]. destruct (IH _ _ _ Hpop) as (Hperm & Hle & Hall).
      apply item_le_fst in Hxy. split; [|split; [done|]].
      * rewrite perm_swap, Hperm. apply perm_swap.
      * constructor; [lia|done].
    + destruct (Heapq.pop_min y heap) as [m' rest'] eqn:Hpop.
      intros [= <- <-]. destruct (IH _ _ _ Hpop) as (Hperm & Hle & Hall).
      apply item_le_false_fst in Hxy. split; [|split; [lia|]].
      * rewrite Hperm. apply perm_swap.
      * constructor; [lia|done].
Qed.

Lemma pending_exhausted (arr : list Z) (runs : list (Z * Z))
    (block_indices : list Z) :
  Forall2 (λ r c, c = r.2) runs block_indices →
  concat (zip_with (slice arr) block_indices (snd <$> runs)) = [].
Proof.
  induction 1 as [|r c runs' bi' -> _ IH]; [done|].
  rewrite fmap_cons. cbn [zip_with concat]. rewrite IH.
  by rewrite slice_empty.
Qed.

(** ** The cursors of the merge *)

Section cursors.

Variable runs : list (Z * Z).
Variable n : Z.
Hypothesis Hchain : runs_chain 0 runs n.

Lemma cursor_inv_init : cursor_inv runs (λ _, False) [] (fst <$> runs).
Proof.
  split; [|done|done].
  apply Forall2_fmap_r, Forall_Forall2_diag, Forall_forall.
  intros r Hr. apply list_elem_of_lookup in Hr as [bn Hbn].
  destruct (runs_chain_lookup _ _ _ _ _ Hchain Hbn). simpl. lia.
Qed.

Lemma cursor_inv_weaken (D D' : nat → Prop) heap block_indices :
  (∀ bn, (bn < length runs)%nat → D' bn → D bn) →
  cursor_inv runs D heap block_indices → cursor_inv runs D' heap block_indices.
Proof.
  intros HD [H1 H2 H3]. split; [done|done|].
  intros bn r c Hbn Hr. apply H3; [|done].
  apply HD; [|done]. by eapply lookup_lt_Some.
Qed.

Lemma cursor_inv_pop heap block_indices (m : Heapq.item) rest :
  cursor_inv runs (λ _, True) heap block_indices → heap ≡ₚ m :: rest →
  ∃ bn : nat, m.2 = Z.of_nat bn ∧ (bn < length runs)%nat
    ∧ cursor_inv runs (λ b, b ≠ bn) rest block_indices.
Proof.
  intros [H1 H2 H3] Hperm. rewrite Hperm in H2.
  apply Forall_cons in H2 as [(bn & Hm & Hbn) H2].
  exists bn. split; [done|]. split; [done|]. split; [done|done|].
  intros b r c Hb Hr Hc Hlt. destruct (H3 b r c) as [v Hv]; [done..|].
  exists v. rewrite Hperm in Hv. apply elem_of_cons in Hv as [Hv|Hv]; [|done].
  subst m. simpl in Hm. lia.
Qed.

Lemma cursor_inv_push (D : nat → Prop) heap block_indices (bn : nat)
    (r : Z * Z) (c v : Z) :
  cursor_inv runs D heap block_indices →
  runs !! bn = Some r → block_indices !! bn = Some c → c < r.2 →
  cursor_inv runs (λ b, D b ∨ b = bn) ((v, Z.of_nat bn) :: heap)
    (<[bn := c + 1]> block_indices).
Proof.
  intros [H1 H2 H3] Hr Hc Hlt. split.
  - rewrite <- (list_insert_id runs bn r) by done.
    apply Forall2_insert; [done|].
    pose proof (Forall2_lookup_lr _ _ _ _ _ _ H1 Hr Hc). simpl in *. lia.
  - constructor; [|done]. exists bn. split; [done|]. by eapply lookup_lt_Some.
  - intros b r' c' Hb Hr' Hc' Hlt'. destruct (decide (b = bn)) as [->|Hne].
    + exists v. left.
    + rewrite list_lookup_insert_ne in Hc' by done.
      destruct Hb as [Hb|]; [|done].
      destruct (H3 b r' c') as [v' Hv']; [done..|]. exists v'. by right.
Qed.

Lemma cursor_inv_skip (D : nat → Prop) heap block_indices (bn : nat)
    (r : Z * Z) :
  cursor_inv runs D heap block_indices →
  runs !! bn = Some r → block_indices !! bn = Some r.2 →
  cursor_inv runs (λ b, D b ∨ b = bn) heap block_indices.
Proof.
  intros [H1 H2 H3] Hr Hc. split; [done|done|].
  intros b r' c' [Hb| ->] Hr' Hc' Hlt'; [by eapply H3|].
  assert (r' = r) by congruence. assert (c' = r.2) by congruence. subst. lia.
Qed.

(** When the heap is empty every block has been read to its end. *)
Lemma cursor_inv_done (arr : list Z) block_indices :
  cursor_inv runs (λ _, True) [] block_indices →
  concat (pending arr block_indices (snd <$> runs)) = [].
Proof.
  intros [H1 _ H3]. unfold pending.
  assert (Forall2 (λ r c, c = r.2) runs block_indices) as Hends.
  { apply Forall2_same_length_lookup. split; [by eapply Forall2_length|].
    intros bn r c Hr Hc.
    pose proof (Forall2_lookup_lr _ _ _ _ _ _ H1 Hr Hc) as Hb. simpl in Hb.
    destruct (decide (c < r.2)) as [Hlt|]; [|lia].
    destruct (H3 bn r c) as [v Hv]; [done..|]. by apply elem_of_nil in Hv. }
  by apply pending_exhausted.
Qed.

(** One execution of the push: either the block has an element left, which
    is read from [arr] and pushed while the cursor advances, or nothing
    changes. *)
Lemma push_next_step (arr : list Z) heap block_indices (bn : nat)
    (r : Z * Z) (c : Z) :
  runs !! bn = Some r → block_indices !! bn = Some c →
  r.1 ≤ c ≤ r.2 → n ≤ Py.len arr →
  (c < r.2 ∧ ∃ v, arr !! Z.to_nat c = Some v
     ∧ push_next arr (snd <$> runs) (Z.of_nat bn) (heap, block_indices)
       = Ok ((v, Z.of_nat bn) :: heap, <[bn := c + 1]> block_indices))
  ∨ (c = r.2
     ∧ push_next arr (snd <$> runs) (Z.of_nat bn) (heap, block_indices)
       = Ok (heap, block_indices)).
Proof.
  intros Hr Hc Hbound Hlen.
  destruct (runs_chain_lookup _ _ _ _ _ Hchain Hr) as (Hlo & Hne & Hhi).
  assert (Py.getitem block_indices (Z.of_nat bn) = Ok c) as Hget.
  { apply getitem_Some; [lia|]. by rewrite Nat2Z.id. }
  assert (Py.getitem (snd <$> runs) (Z.of_nat bn) = Ok r.2) as Hend.
  { apply getitem_Some; [lia|]. by rewrite Nat2Z.id, list_lookup_fmap, Hr. }
  unfold push_next. rewrite Hget, bind_Ok, Hend, bind_Ok.
  destruct (Z.ltb_spec c r.2); [left|right; split; [lia|done]].
  split; [done|].
  destruct (getitem_in_bounds arr c) as (v & Hv & Hgetv); [lia|].
  exists v. split; [done|].
  rewrite bind_Ok, Hgetv, !bind_Ok.
  rewrite setitem_in_bounds, bind_Ok, Nat2Z.id; [done|].
  apply lookup_lt_Some in Hc. unfold Py.len. lia.
Qed.

Lemma concat_insert_cons (L : list (list Z)) (bn : nat) (v : Z) (t : list Z) :
  L !! bn = Some (v :: t) → concat L ≡ₚ v :: concat (<[bn := t]> L).
Proof.
  revert bn. induction L as [|l L IH]; intros bn Hbn; [done|].
  destruct bn as [|bn]; simpl in *.
  - by inversion Hbn; subst.
  - rewrite (IH bn Hbn). by rewrite Permutation_middle.
Qed.

Lemma pending_push (arr : list Z) block_indices (bn : nat) (r : Z * Z)
    (c v : Z) :
  runs !! bn = Some r → block_indices !! bn = Some c →
  0 ≤ c < r.2 → arr !! Z.to_nat c = Some v →
  concat (pending arr block_indices (snd <$> runs))
  ≡ₚ v :: concat (pending arr (<[bn := c + 1]> block_indices) (snd <$> runs)).
Proof.
  intros Hr Hc Hbound Hv. unfold pending.
  rewrite <- (list_insert_id (snd <$> runs) bn r.2)
    by (by rewrite list_lookup_fmap, Hr).
  rewrite <- insert_zip_with, list_insert_id by (by rewrite list_lookup_fmap, Hr).
  apply concat_insert_cons.
  rewrite lookup_zip_with, Hc, list_lookup_fmap, Hr. simpl.
  by rewrite (slice_cons arr c r.2 v).
Qed.

End cursors.

(** ** abs.py: the merge into [result] *)

Section abs_merge.

Variable arr : list Z.
Variable runs : list (Z * Z).
Variable n : Z.
Hypothesis Hlen : n = Py.len arr.
Hypothesis Hchain : runs_chain 0 runs n.
Hypothesis Hruns : Forall (run_sorted arr) runs.

Lemma merge_inv_init :
  merge_inv arr runs (λ _, False) [] (fst <$> runs) [].
Proof.
  split.
  - by eapply cursor_inv_init.
  - simpl. rewrite (runs_chain_concat arr 0 n) by done.
    by rewrite Hlen, slice_all.
  - intros v bn r c Hin. by apply elem_of_nil in Hin.
  - intros x it Hin. by apply elem_of_nil in Hin.
  - constructor.
Qed.

Lemma merge_inv_weaken (D D' : nat → Prop) heap block_indices result :
  (∀ bn, (bn < length runs)%nat → D' bn → D bn) →
  merge_inv arr runs D heap block_indices result →
  merge_inv arr runs D' heap block_indices result.
Proof.
  intros HD [H1 H2 H3 H4 H5]. split; [|done..].
  by eapply cursor_inv_weaken.
Qed.

Lemma merge_inv_push_next (D : nat → Prop) heap block_indices result
    (bn : nat) (r : Z * Z) :
  merge_inv arr runs D heap block_indices result →
  runs !! bn = Some r →
  (∀ x c, x ∈ result → block_indices !! bn = Some c →
          Forall (Z.le x) (slice arr c r.2)) →
  ∃ heap' block_indices',
    push_next arr (snd <$> runs) (Z.of_nat bn) (heap, block_indices)
    = Ok (heap', block_indices')
    ∧ merge_inv arr runs (λ b, D b ∨ b = bn) heap' block_indices' result.
Proof.
  intros [H1 H2 H3 H4 H5] Hr Hlow.
  destruct (Forall2_lookup_l _ _ _ _ _ (ci_cursors _ _ _ _ H1) Hr)
    as (c & Hc & Hbound).
  destruct (runs_chain_lookup _ _ _ _ _ Hchain Hr) as (Hlo & Hne & Hhi).
  destruct (push_next_step runs n Hchain arr heap block_indices bn r c)
    as [(Hlt & v & Hv & ->)|(-> & ->)]; [done|done|done|lia| |].
  - eexists _, _. split; [done|].
    assert (slice arr c r.2 = v :: slice arr (c + 1) r.2) as Hslice
      by (apply slice_cons; [lia|done]).
    split; [by eapply cursor_inv_push|..|done].
    + etrans; [|exact H2]. f_equiv.
      rewrite (pending_push runs arr block_indices bn r c v) by (done || lia).
      rewrite fmap_cons. simpl. apply Permutation_middle.
    + intros v' b' r' c' Hin Hr' Hc'. destruct (decide (b' = bn)) as [->|Hne'].
      * assert (r' = r) by congruence. subst r'.
        rewrite list_lookup_insert_eq in Hc' by (by eapply lookup_lt_Some).
        inversion Hc'; subst c'.
        apply elem_of_cons in Hin as [Hin|Hin].
        -- inversion Hin; subst v'.
           eapply run_sorted_slice; [|lia|lia|lia|done].
           eapply Forall_lookup_1; [exact Hruns|done].
        -- pose proof (H3 v' bn r c Hin Hr Hc) as Hall.
           rewrite Hslice in Hall. by apply Forall_cons in Hall as [_ Hall].
      * rewrite list_lookup_insert_ne in Hc' by done.
        apply elem_of_cons in Hin as [Hin|Hin]; [|by eapply H3].
        inversion Hin. lia.
    + intros x it Hx Hit. apply elem_of_cons in Hit as [->|Hit]; [|by apply H4].
      pose proof (Hlow x c Hx Hc) as Hall. rewrite Hslice in Hall.
      by apply Forall_cons in Hall as [Hxv _].
  - eexists _, _. split; [done|]. split; [|done..].
    by eapply cursor_inv_skip.
Qed.

Lemma init_heap_spec :
  ∃ heap block_indices,
    init_heap arr runs = Ok (heap, block_indices)
    ∧ merge_inv arr runs (λ _, True) heap block_indices [].
Proof.
  unfold init_heap.
  destruct (for_each_range_invariant
              (λ x st, merge_inv arr runs (λ b, Z.of_nat b < x) st.1 st.2 [])
              (push_next arr (snd <$> runs)) 0 (Py.len runs)
              ([], fst <$> runs))
    as ([heap block_indices] & -> & Hinv).
  - apply len_nonneg.
  - eapply merge_inv_weaken; [|apply merge_inv_init]. simpl. lia.
  - intros x [heap block_indices] Hx Hinv. simpl in Hinv.
    destruct (lookup_lt_is_Some_2 runs (Z.to_nat x)) as [r Hr].
    { unfold Py.len in Hx. lia. }
    destruct (merge_inv_push_next _ heap block_indices [] (Z.to_nat x) r Hinv Hr)
      as (heap' & bi' & Hpush & Hinv').
    { intros y c Hy. by apply elem_of_nil in Hy. }
    rewrite Z2Nat.id in Hpush by lia. rewrite Hpush.
    exists (heap', bi'). split; [done|]. simpl.
    eapply merge_inv_weaken; [|exact Hinv']. simpl. lia.
  - exists heap, block_indices. split; [done|].
    eapply merge_inv_weaken; [|exact Hinv]. simpl. unfold Py.len. lia.
Qed.

Lemma merge_loop_spec (fuel : nat) heap block_indices result :
  merge_inv arr runs (λ _, True) heap block_indices result →
  (length arr < fuel + length result)%nat →
  ∃ result',
    Abs.merge_loop fuel arr (snd <$> runs) heap block_indices result
    = Ok result'
    ∧ StronglySorted Z.le result' ∧ result' ≡ₚ arr.
Proof.
  revert heap block_indices result.
  induction fuel as [|fuel IH]; intros heap block_indices result Hinv Hfuel.
  { pose proof (Permutation_length (mi_perm _ _ _ _ _ _ Hinv)) as Hl.
    rewrite !length_app in Hl. lia. }
  destruct heap as [|x heap0].
  { exists result. split; [done|]. split; [by destruct Hinv|].
    etrans; [|exact (mi_perm _ _ _ _ _ _ Hinv)].
    rewrite (cursor_inv_done runs arr block_indices) by (by destruct Hinv).
    by rewrite fmap_nil, !app_nil_r. }
  cbn [Abs.merge_loop Heapq.heappop].
  destruct (Heapq.pop_min x heap0) as [[val block_id] rest] eqn:Hpop.
  rewrite bind_Ok.
  destruct (pop_min_spec _ _ _ _ Hpop) as (Hperm & _ & Hmin).
  destruct (cursor_inv_pop runs _ _ _ _ (mi_cursor _ _ _ _ _ _ Hinv) Hperm)
    as (bn & Hbn & Hbnlt & Hcur).
  simpl in Hbn. subst block_id.
  destruct (lookup_lt_is_Some_2 runs bn Hbnlt) as [r Hr].
  assert ((val, Z.of_nat bn) ∈ x :: heap0) as Hval
    by (rewrite Hperm; left).
  assert (merge_inv arr runs (λ b, b ≠ bn) rest block_indices (result ++ [val]))
    as Hinv1.
  { destruct Hinv as [H1 H2 H3 H4 H5]. split; [done|..].
    - etrans; [|exact H2]. rewrite Hperm, fmap_cons. cbn [fst].
      by rewrite <- !app_assoc.
    - intros v' b' r' c' Hin. apply H3. rewrite Hperm. by right.
    - intros y it Hy Hit. apply elem_of_app in Hy as [Hy|Hy].
      + apply H4; [done|]. rewrite Hperm. by right.
      + apply list_elem_of_singleton in Hy as ->.
        by apply (proj1 (Forall_forall _ _) Hmin it).
    - apply StronglySorted_app_2; [|done|repeat constructor].
      intros x1 x2 Hx1 Hx2. apply list_elem_of_singleton in Hx2 as ->.
      by apply (H4 x1 (val, Z.of_nat bn)). }
  destruct (merge_inv_push_next _ rest block_indices (result ++ [val]) bn r
              Hinv1 Hr) as (heap' & bi' & -> & Hinv2).
  { intros y c Hy Hc.
    pose proof (mi_bound _ _ _ _ _ _ Hinv val bn r c Hval Hr Hc) as Hall.
    eapply Forall_impl; [exact Hall|]. intros z Hz. simpl in Hz.
    assert (y ≤ val); [|lia].
    apply elem_of_app in Hy as [Hy|Hy].
    - by apply (mi_result _ _ _ _ _ _ Hinv y (val, Z.of_nat bn)).
    - apply list_elem_of_singleton in Hy. lia. }
  rewrite bind_Ok. apply IH.
  - eapply merge_inv_weaken; [|exact Hinv2]. simpl. intros b _ _.
    destruct (decide (b = bn)); auto.
  - rewrite length_app. simpl. lia.
Qed.

Lemma merge_runs_spec (fuel : nat) :
  (length arr < fuel)%nat →
  ∃ result, Abs.merge_runs fuel arr runs = Ok result
    ∧ StronglySorted Z.le result ∧ result ≡ₚ arr.
Proof.
  intros Hfuel. unfold Abs.merge_runs.
  destruct init_heap_spec as (heap & block_indices & -> & Hinv).
  rewrite bind_Ok. apply merge_loop_spec; [done|]. simpl. lia.
Qed.

End abs_merge.

(** ** Orders on whole lists *)

Lemma StronglySorted_nondecreasing (l : list Z) :
  StronglySorted Z.le l → nondecreasing l.
Proof.
  induction 1 as [|a l Hl IH Ha]; intros i x y Hx Hy; [done|].
  destruct i as [|i]; simpl in *.
  - inversion Hx; subst. eapply Forall_lookup_1; [exact Ha|exact Hy].
  - by eapply IH.
Qed.

Lemma nondecreasing_StronglySorted (l : list Z) :
  nondecreasing l → StronglySorted Z.le l.
Proof.
  intros Hl. apply Sorted_StronglySorted; [apply _|].
  induction l as [|a l IH]; [constructor|]. constructor.
  - apply IH. intros i x y Hx Hy. by apply (Hl (S i)).
  - destruct l as [|b l]; constructor. by apply (Hl 0%nat).
Qed.

Lemma run_sorted_full (arr : list Z) (n : Z) :
  run_sorted arr (0, n) → n = Py.len arr → nondecreasing arr.
Proof.
  intros Hrun Hn i x y Hx Hy. apply (Hrun (Z.of_nat i)); simpl.
  - lia.
  - apply lookup_lt_Some in Hy. unfold Py.len in Hn. lia.
  - by rewrite Nat2Z.id.
  - by replace (Z.to_nat (Z.of_nat i + 1)) with (S i) by lia.
Qed.

Lemma single_full_run_spec (runs : list (Z * Z)) (n : Z) :
  ∃ b, single_full_run runs n = Ok b ∧ (b = true → runs = [(0, n)]).
Proof.
  unfold single_full_run, Py.len.
  destruct (Z.eqb_spec (Z.of_nat (length runs)) 1) as [Hone|];
    [|by exists false].
  destruct runs as [|[s e] [|]]; simpl in Hone; [lia| |lia].
  assert (Py.getitem [(s, e)] 0 = Ok (s, e)) as -> by reflexivity.
  rewrite bind_Ok. simpl.
  destruct (Z.eqb_spec s 0) as [->|]; [|by exists false].
  exists (e =? n). split; [done|]. intros He. apply Z.eqb_eq in He. by subst.
Qed.

Lemma single_full_run_whole (n : Z) : single_full_run [(0, n)] n = Ok true.
Proof.
  unfold single_full_run.
  assert (Py.getitem [(0, n)] 0 = Ok (0, n)) as -> by reflexivity.
  simpl. by rewrite Z.eqb_refl.
Qed.

Lemma short_list_sorted (l : list Z) :
  Py.len l ≤ 1 → StronglySorted Z.le l.
Proof.
  destruct l as [|a [|b l]]; unfold Py.len; simpl; intros; [| |lia];
    repeat constructor.
Qed.

(** ** abs.py: the copy and the whole function *)

Lemma copy_back_spec (n : Z) (result arr : list Z) :
  n = Py.len arr → length result = length arr →
  Abs.copy_back n result arr = Ok result.
Proof.
  intros Hn Hlen. unfold Abs.copy_back.
  destruct (for_each_range_invariant
              (λ i a, 0 ≤ i ≤ n
                      ∧ a = take (Z.to_nat i) result ++ drop (Z.to_nat i) arr)
              (λ i arr0, v ← Py.getitem result i; Py.setitem arr0 i v)
              0 n arr) as (a & -> & Hi & ->).
  - rewrite Hn. apply len_nonneg.
  - split; [|done]. rewrite Hn. pose proof (len_nonneg arr). lia.
  - intros x a Hx [_ ->]. unfold Py.len in Hn.
    destruct (getitem_in_bounds result x) as (v & Hv & ->);
      [unfold Py.len; lia|].
    destruct (lookup_lt_is_Some_2 arr (Z.to_nat x)) as [y Hy]; [lia|].
    rewrite bind_Ok, setitem_in_bounds; cycle 1.
    { unfold Py.len. rewrite length_app, length_take, length_drop. lia. }
    eexists. split; [done|]. split; [lia|].
    rewrite insert_app_r_alt by (rewrite length_take; lia).
    rewrite length_take_le, Nat.sub_diag by lia.
    rewrite (drop_S _ _ _ Hy). simpl.
    replace (Z.to_nat (x + 1)) with (S (Z.to_nat x)) by lia.
    by rewrite (take_S_r _ _ _ Hv), <- app_assoc.
  - f_equal. unfold Py.len in Hn.
    rewrite take_ge, drop_ge by lia. apply app_nil_r.
Qed.

Lemma abs_block_size_pos (n : Z) : 0 < Abs.block_size n.
Proof. unfold Abs.block_size. lia. Qed.

Lemma adaptive_block_sort_run_spec (arr : list Z) :
  ∃ e r, Abs.adaptive_block_sort_run arr = Ok (e, r)
    ∧ StronglySorted Z.le r ∧ r ≡ₚ arr
    ∧ (Py.len arr ≤ 1 → e = ReturnTrivial ∧ r = arr).
Proof.
  unfold Abs.adaptive_block_sort_run.
  destruct (Z.leb_spec (Py.len arr) 1) as [Hshort|Hlong].
  { exists ReturnTrivial, arr. repeat split; [|done].
    by apply short_list_sorted. }
  destruct (sort_blocks_spec (S (length arr)) (Py.len arr)
              (Abs.block_size (Py.len arr)) arr)
    as (a & -> & Hlen & Hperm);
    [apply abs_block_size_pos|done|unfold Py.len; lia|].
  rewrite bind_Ok.
  destruct (detect_runs_spec (S (length arr)) a (Py.len arr))
    as (runs & -> & Hchain & Hruns); [done|unfold Py.len; lia|].
  rewrite bind_Ok.
  destruct (single_full_run_spec runs (Py.len arr)) as (fast & -> & Hfast).
  rewrite bind_Ok. destruct fast.
  { exists ReturnFastPath, a. split; [done|]. split; [|split; [done|lia]].
    rewrite Hfast in Hruns by done.
    apply nondecreasing_StronglySorted.
    apply (run_sorted_full a (Py.len arr)); [|done].
    by apply (Forall_lookup_1 _ _ 0%nat _ Hruns). }
  destruct (merge_runs_spec a runs (Py.len arr) (eq_sym Hlen) Hchain Hruns
              (S (length arr))) as (result & -> & Hsorted & Hperm').
  { unfold Py.len in Hlen. lia. }
  rewrite bind_Ok, copy_back_spec, bind_Ok;
    [|done|by apply Permutation_length].
  exists ReturnMerged, result. split; [done|]. split; [done|].
  split; [by rewrite Hperm'|lia].
Qed.

(** ** oabs.py: the merge in place *)

Section oabs_merge.

Variable arr0 : list Z.
Variable runs : list (Z * Z).
Variable n : Z.
Hypothesis Hlen : n = Py.len arr0.
Hypothesis Hchain : runs_chain 0 runs n.

Lemma place_inv_init : place_inv arr0 runs n (λ _, False) [] (fst <$> runs) arr0 0.
Proof.
  split; [by eapply cursor_inv_init|done|done|].
  rewrite (runs_chain_concat arr0 0 n) by done.
  rewrite Hlen, slice_all. unfold Py.len. simpl. lia.
Qed.

Lemma place_inv_weaken (D D' : nat → Prop) heap block_indices arr w :
  (∀ bn, (bn < length runs)%nat → D' bn → D bn) →
  place_inv arr0 runs n D heap block_indices arr w →
  place_inv arr0 runs n D' heap block_indices arr w.
Proof.
  intros HD [H1 H2 H3 H4]. split; [|done..]. by eapply cursor_inv_weaken.
Qed.

Lemma place_inv_push_next (D : nat → Prop) heap block_indices arr w
    (bn : nat) (r : Z * Z) :
  place_inv arr0 runs n D heap block_indices arr w →
  runs !! bn = Some r →
  ∃ heap' block_indices',
    push_next arr (snd <$> runs) (Z.of_nat bn) (heap, block_indices)
    = Ok (heap', block_indices')
    ∧ place_inv arr0 runs n (λ b, D b ∨ b = bn) heap' block_indices' arr w.
Proof.
  intros [H1 H2 H3 H4] Hr.
  destruct (Forall2_lookup_l _ _ _ _ _ (ci_cursors _ _ _ _ H1) Hr)
    as (c & Hc & Hbound).
  destruct (runs_chain_lookup _ _ _ _ _ Hchain Hr) as (Hlo & Hne & Hhi).
  destruct (push_next_step runs n Hchain arr heap block_indices bn r c)
    as [(Hlt & v & Hv & ->)|(-> & ->)]; [done|done|done|lia| |].
  - eexists _, _. split; [done|].
    split; [by eapply cursor_inv_push|done|done|].
    destruct (getitem_in_bounds arr0 c) as (v0 & Hv0 & _); [lia|].
    pose proof (Permutation_length
                  (pending_push runs arr0 block_indices bn r c v0 Hr Hc
                     ltac:(lia) Hv0)) as Hl.
    rewrite Hl in H4. simpl in *. lia.
  - eexists _, _. split; [done|]. split; [|done..].
    by eapply cursor_inv_skip.
Qed.

Lemma init_heap_place_spec :
  ∃ heap block_indices,
    init_heap arr0 runs = Ok (heap, block_indices)
    ∧ place_inv arr0 runs n (λ _, True) heap block_indices arr0 0.
Proof.
  unfold init_heap.
  destruct (for_each_range_invariant
              (λ x st, place_inv arr0 runs n (λ b, Z.of_nat b < x) st.1 st.2 arr0 0)
              (push_next arr0 (snd <$> runs)) 0 (Py.len runs)
              ([], fst <$> runs))
    as ([heap block_indices] & -> & Hinv).
  - apply len_nonneg.
  - eapply place_inv_weaken; [|apply place_inv_init]. simpl. lia.
  - intros x [heap block_indices] Hx Hinv. simpl in Hinv.
    destruct (lookup_lt_is_Some_2 runs (Z.to_nat x)) as [r Hr].
    { unfold Py.len in Hx. lia. }
    destruct (place_inv_push_next _ heap block_indices arr0 0 (Z.to_nat x) r
                Hinv Hr) as (heap' & bi' & Hpush & Hinv').
    rewrite Z2Nat.id in Hpush by lia. rewrite Hpush.
    exists (heap', bi'). split; [done|]. simpl.
    eapply place_inv_weaken; [|exact Hinv']. simpl. lia.
  - exists heap, block_indices. split; [done|].
    eapply place_inv_weaken; [|exact Hinv]. simpl. unfold Py.len. lia.
Qed.

Lemma merge_in_place_spec (fuel : nat) heap block_indices arr w :
  place_inv arr0 runs n (λ _, True) heap block_indices arr w →
  n - w < Z.of_nat fuel →
  ∃ arr', Oabs.merge_in_place fuel (snd <$> runs) heap block_indices arr w
          = Ok (arr', n)
    ∧ Py.len arr' = n.
Proof.
  revert heap block_indices arr w.
  induction fuel as [|fuel IH]; intros heap block_indices arr w Hinv Hfuel.
  { destruct Hinv as [_ _ _ Hcount]. lia. }
  destruct heap as [|x heap0].
  { exists arr. destruct Hinv as [Hcur Hl Hw Hcount].
    rewrite (cursor_inv_done runs arr0 block_indices) in Hcount by done.
    simpl in *. split; [|done]. do 2 f_equal. lia. }
  cbn [Oabs.merge_in_place Heapq.heappop].
  destruct (Heapq.pop_min x heap0) as [[val block_id] rest] eqn:Hpop.
  rewrite bind_Ok.
  destruct (pop_min_spec _ _ _ _ Hpop) as (Hperm & _ & _).
  destruct (cursor_inv_pop runs _ _ _ _ (pi_cursor _ _ _ _ _ _ _ _ Hinv) Hperm)
    as (bn & Hbn & Hbnlt & Hcur).
  simpl in Hbn. subst block_id.
  destruct (lookup_lt_is_Some_2 runs bn Hbnlt) as [r Hr].
  destruct Hinv as [_ Hl Hw Hcount].
  apply Permutation_length in Hperm. simpl in Hperm, Hcount.
  rewrite setitem_in_bounds, bind_Ok by lia.
  destruct (place_inv_push_next (λ b, b ≠ bn) rest block_indices
              (<[Z.to_nat w := val]> arr) (w + 1) bn r)
    as (heap' & bi' & -> & Hinv2); [|done|].
  { split; [done|by rewrite len_insert|lia|lia]. }
  rewrite bind_Ok. apply IH; [|lia].
  eapply place_inv_weaken; [|exact Hinv2]. simpl. intros b _ _.
  destruct (decide (b = bn)); auto.
Qed.

Lemma merge_phase_spec (fuel : nat) :
  n < Z.of_nat fuel →
  ∃ arr', Oabs.merge_phase fuel arr0 runs = Ok (arr', n) ∧ Py.len arr' = n.
Proof.
  intros Hfuel. unfold Oabs.merge_phase.
  destruct init_heap_place_spec as (heap & block_indices & -> & Hinv).
  rewrite bind_Ok. apply merge_in_place_spec; [done|lia].
Qed.

End oabs_merge.

(** The loop over [range(n, n)] has no iteration. *)
Lemma final_adjustment_at_end (fuel : nat) (n : Z) (arr : list Z) :
  Oabs.final_adjustment fuel n n arr = Ok arr.
Proof. unfold Oabs.final_adjustment. by rewrite range_nil by lia. Qed.

Lemma oabs_block_size_pos (n : Z) : 0 < Oabs.block_size n.
Proof.
  unfold Oabs.block_size, Oabs.elements_per_cache_line,
    Oabs.cache_line_bytes, Oabs.element_size.
  change (64 `div` 8) with 8. lia.
Qed.

Lemma optimized_adaptive_block_sort_run_spec (arr : list Z) :
  ∃ e r, Oabs.optimized_adaptive_block_sort_run arr = Ok (e, r)
    ∧ Py.len r = Py.len arr.
Proof.
  unfold Oabs.optimized_adaptive_block_sort_run.
  destruct (Z.leb_spec (Py.len arr) 1) as [Hshort|Hlong].
  { by exists ReturnTrivial, arr. }
  destruct (sort_blocks_spec (S (length arr)) (Py.len arr)
              (Oabs.block_size (Py.len arr)) arr)
    as (a & -> & Hlen & Hperm);
    [apply oabs_block_size_pos|done|unfold Py.len; lia|].
  rewrite bind_Ok.
  destruct (detect_runs_spec (S (length arr)) a (Py.len arr))
    as (runs & -> & Hchain & Hruns); [done|unfold Py.len; lia|].
  rewrite bind_Ok.
  destruct (single_full_run_spec runs (Py.len arr)) as (fast & -> & Hfast).
  rewrite bind_Ok. destruct fast.
  { by exists ReturnFastPath, a. }
  destruct (merge_phase_spec a runs (Py.len arr) (eq_sym Hlen) Hchain
              (S (length arr))) as (a' & -> & Hlen'); [unfold Py.len; lia|].
  rewrite bind_Ok, final_adjustment_at_end, bind_Ok.
  by exists ReturnMerged, a'.
Qed.

Lemma runs_chain_adjacent (lo hi : Z) (runs : list (Z * Z)) (i : nat)
    (r r' : Z * Z) :
  runs_chain lo runs hi → runs !! i = Some r → runs !! S i = Some r' →
  r.2 = r'.1.
Proof.
  revert lo i. induction runs as [|r0 runs IH]; intros lo i; simpl; [done|].
  intros (_ & _ & Hrest) Hr Hr'. destruct i as [|i]; simpl in Hr.
  - inversion Hr; subst. destruct runs as [|r1 runs]; simpl in *; [done|].
    inversion Hr'; subst. by destruct Hrest as [-> _].
  - by eapply IH.
Qed.

Lemma runs_chain_partition (runs : list (Z * Z)) (n : Z) :
  runs_chain 0 runs n → runs_partition runs n.
Proof.
  intros Hchain. split.
  - intros i r r'. by eapply runs_chain_adjacent.
  - intros i j r r' p Hr Hr' Hin Hin'.
    destruct (runs_chain_lookup _ _ _ _ _ Hchain Hr) as (? & ? & ?).
    destruct (runs_chain_cover 0 n runs p Hchain) as (bn & _ & _ & _ & Huniq).
    { unfold in_run in Hin. lia. }
    rewrite (Huniq i r), (Huniq j r'); done.
  - intros p. split.
    + intros Hp.
      destruct (runs_chain_cover 0 n runs p Hchain Hp) as (bn & r & Hr & Hin & _).
      exists r. split; [|done]. by eapply list_elem_of_lookup_2.
    + intros (r & Hr & Hin). apply list_elem_of_lookup in Hr as [bn Hbn].
      destruct (runs_chain_lookup _ _ _ _ _ Hchain Hbn) as (? & ? & ?).
      unfold in_run in Hin. lia.
Qed.

(** ** The claims *)

(** C1.  The claim: for every input list [optimized_adaptive_block_sort]
    returns a list in non-decreasing order.  The code does not: on
    [[3; 4; 5; 6; 7; 8; 9; 10; 1; 2]] the in-place merge writes over cells of
    the first run before their cursor reads them, and the list returned has
    [3] before [2]. *)
Theorem C1_in_place_merge_returns_unsorted :
  Oabs.optimized_adaptive_block_sort descending_tail
  = Ok [1; 2; 3; 2; 3; 2; 3; 2; 3; 2]
  ∧ ¬ nondecreasing [1; 2; 3; 2; 3; 2; 3; 2; 3; 2].
Proof.
  split; [by vm_compute|].
  intros Hsorted. specialize (Hsorted 2%nat 3 2 eq_refl eq_refl). lia.
Qed.

(** C2.  For every input list [adaptive_block_sort] returns a list that is
    in non-decreasing order ([r[i] <= r[i + 1]] for every [i]), has the
    elements of the input with their multiplicities, and so is the reference
    sort of the input. *)
Theorem C2_adaptive_block_sort_sorts (arr : list Z) :
  ∃ r, Abs.adaptive_block_sort arr = Ok r
    ∧ nondecreasing r
    ∧ r ≡ₚ arr
    ∧ r = reference_sort arr.
Proof.
  destruct (adaptive_block_sort_run_spec arr)
    as (e & r & Hrun & Hsorted & Hperm & _).
  exists r. unfold Abs.adaptive_block_sort. rewrite Hrun.
  split; [done|]. split; [by apply StronglySorted_nondecreasing|].
  split; [done|]. unfold reference_sort.
  apply (StronglySorted_unique Z.le); [done| |].
  - apply StronglySorted_merge_sort; apply _.
  - by rewrite merge_sort_Permutation.
Qed.

(** C3.  The claim: the output of [optimized_adaptive_block_sort] has the
    elements of the input with their multiplicities.  The code does not keep
    them: on [[2; 3; 4; 5; 6; 7; 8; 9; 1]] the merge reads back the [2] it has
    just written, [3] to [9] are lost and [2] comes eight times. *)
Theorem C3_in_place_merge_loses_elements :
  Oabs.optimized_adaptive_block_sort small_last
  = Ok [1; 2; 2; 2; 2; 2; 2; 2; 2]
  ∧ ¬ [1; 2; 2; 2; 2; 2; 2; 2; 2] ≡ₚ small_last.
Proof.
  split; [by vm_compute|].
  intros Hperm. assert (9 ∈ [1; 2; 2; 2; 2; 2; 2; 2; 2]) as Hin.
  { rewrite Hperm. apply list_elem_of_lookup. by exists 7%nat. }
  repeat (apply elem_of_cons in Hin as [Hin|Hin]; [discriminate Hin|]).
  by apply elem_of_nil in Hin.
Qed.

(** C4.  The claim: the two functions return equal lists on every input.
    They do not: on [[3; 4; 5; 6; 7; 8; 9; 10; 1; 2]] the buffered merge of
    abs.py returns the sorted list and the in-place merge of oabs.py returns
    another one. *)
Theorem C4_variants_differ :
  Abs.adaptive_block_sort descending_tail
  = Ok [1; 2; 3; 4; 5; 6; 7; 8; 9; 10]
  ∧ Oabs.optimized_adaptive_block_sort descending_tail
    = Ok [1; 2; 3; 2; 3; 2; 3; 2; 3; 2]
  ∧ Oabs.optimized_adaptive_block_sort descending_tail
    ≠ Abs.adaptive_block_sort descending_tail.
Proof. split; [by vm_compute|]. split; by vm_compute. Qed.

(** C5.  The claim: on scenario 1 both functions return
    [[11; 12; 12; 22; 25; 33; 34; 45; 64; 90]].  [adaptive_block_sort] does;
    [optimized_adaptive_block_sort] returns a list without [64] and [90] and
    with [34] three times. *)
Theorem C5_scenario1 :
  Abs.adaptive_block_sort scenario1
  = Ok [11; 12; 12; 22; 25; 33; 34; 45; 64; 90]
  ∧ Oabs.optimized_adaptive_block_sort scenario1
    = Ok [11; 12; 12; 22; 25; 33; 34; 34; 34; 45]
  ∧ Oabs.optimized_adaptive_block_sort scenario1
    ≠ Ok [11; 12; 12; 22; 25; 33; 34; 45; 64; 90].
Proof. split; [by vm_compute|]. split; by vm_compute. Qed.

(** C6.  On an input of length at least 2 that is already in non-decreasing
    order, in both functions the block sort leaves the array as it is, run
    detection finds the single run [(0, n)], the test of the fast path
    holds, and the function leaves through the [return] of the fast path,
    before the merge, with the input unchanged. *)
Theorem C6_sorted_input_takes_fast_path (arr : list Z) :
  nondecreasing arr → 2 ≤ Py.len arr →
  let n := Py.len arr in
  let fuel := S (length arr) in
  sort_blocks fuel n (Abs.block_size n) arr = Ok arr
  ∧ sort_blocks fuel n (Oabs.block_size n) arr = Ok arr
  ∧ detect_runs fuel arr n = Ok [(0, n)]
  ∧ single_full_run [(0, n)] n = Ok true
  ∧ Abs.adaptive_block_sort_run arr = Ok (ReturnFastPath, arr)
  ∧ Oabs.optimized_adaptive_block_sort_run arr = Ok (ReturnFastPath, arr)
  ∧ Abs.adaptive_block_sort arr = Ok arr
  ∧ Oabs.optimized_adaptive_block_sort arr = Ok arr.
Proof.
  intros Hsorted Hlen n fuel.
  assert (sort_blocks fuel n (Abs.block_size n) arr = Ok arr) as Habs.
  { apply sort_blocks_nondecreasing;
      [done|apply abs_block_size_pos|done|unfold fuel; lia]. }
  assert (sort_blocks fuel n (Oabs.block_size n) arr = Ok arr) as Hoabs.
  { apply sort_blocks_nondecreasing;
      [done|apply oabs_block_size_pos|done|unfold fuel; lia]. }
  assert (detect_runs fuel arr n = Ok [(0, n)]) as Hruns.
  { apply detect_runs_nondecreasing;
      [done|done|unfold n; lia|unfold fuel, n, Py.len; lia]. }
  pose proof (single_full_run_whole n) as Hfast.
  assert (Abs.adaptive_block_sort_run arr = Ok (ReturnFastPath, arr)) as Hrun.
  { unfold Abs.adaptive_block_sort_run.
    destruct (Z.leb_spec (Py.len arr) 1); [lia|].
    fold n fuel. by rewrite Habs, bind_Ok, Hruns, bind_Ok, Hfast. }
  assert (Oabs.optimized_adaptive_block_sort_run arr
          = Ok (ReturnFastPath, arr)) as Hrun'.
  { unfold Oabs.optimized_adaptive_block_sort_run.
    destruct (Z.leb_spec (Py.len arr) 1); [lia|].
    fold n fuel. by rewrite Hoabs, bind_Ok, Hruns, bind_Ok, Hfast. }
  repeat split; try done.
  - unfold Abs.adaptive_block_sort. by rewrite Hrun.
  - unfold Oabs.optimized_adaptive_block_sort. by rewrite Hrun'.
Qed.

Lemma C6_witness :
  nondecreasing [1; 2; 3; 4; 5] ∧ 2 ≤ Py.len [1; 2; 3; 4; 5]
  ∧ Abs.adaptive_block_sort_run [1; 2; 3; 4; 5]
    = Ok (ReturnFastPath, [1; 2; 3; 4; 5])
  ∧ Oabs.optimized_adaptive_block_sort_run [1; 2; 3; 4; 5]
    = Ok (ReturnFastPath, [1; 2; 3; 4; 5]).
Proof.
  assert (nondecreasing [1; 2; 3; 4; 5]) as Hsorted.
  { intros [|[|[|[|[|i]]]]] x y Hx Hy; simpl in Hx, Hy;
      inversion Hx; inversion Hy; lia. }
  assert (2 ≤ Py.len [1; 2; 3; 4; 5]) as Hlen by (unfold Py.len; simpl; lia).
  destruct (C6_sorted_input_takes_fast_path [1; 2; 3; 4; 5] Hsorted Hlen)
    as (_ & _ & _ & _ & Habs & Hoabs & _).
  exact (conj Hsorted (conj Hlen (conj Habs Hoabs))).
Defined.

(** C7.  In both functions, for every input of length at least 2, the block
    sort and the run detection return, and the run list partitions [[0, n)]:
    the end of each run is the start of the next, no index lies in two runs,
    the indices covered are those of [[0, n)], no run is empty, and each run
    is a non-decreasing segment of the block-sorted array. *)
Theorem C7_runs_partition_the_array (arr : list Z) (block_size : Z) :
  2 ≤ Py.len arr →
  let n := Py.len arr in
  let fuel := S (length arr) in
  block_size = Abs.block_size n ∨ block_size = Oabs.block_size n →
  ∃ a runs,
    sort_blocks fuel n block_size arr = Ok a
    ∧ detect_runs fuel a n = Ok runs
    ∧ runs_partition runs n
    ∧ Forall (λ r, r.1 < r.2) runs
    ∧ Forall (run_sorted a) runs.
Proof.
  intros Hlen n fuel Hbs.
  assert (0 < block_size) as Hpos.
  { destruct Hbs as [-> | ->];
      [apply abs_block_size_pos|apply oabs_block_size_pos]. }
  destruct (sort_blocks_spec fuel n block_size arr) as (a & Ha & Hlena & _);
    [done|done|unfold fuel, n, Py.len; lia|].
  destruct (detect_runs_spec fuel a n) as (runs & Hr & Hchain & Hruns);
    [done|unfold fuel, n, Py.len; lia|].
  exists a, runs. split; [done|]. split; [done|].
  split; [by apply runs_chain_partition|]. split; [|done].
  apply Forall_forall. intros r Hin.
  apply list_elem_of_lookup in Hin as [bn Hbn].
  destruct (runs_chain_lookup _ _ _ _ _ Hchain Hbn) as (_ & ? & _). done.
Qed.

Lemma C7_witness :
  2 ≤ Py.len descending_tail
  ∧ ∃ a runs,
      sort_blocks 11 10 (Oabs.block_size 10) descending_tail = Ok a
      ∧ detect_runs 11 a 10 = Ok runs
      ∧ runs_partition runs 10
      ∧ Forall (λ r, r.1 < r.2) runs
      ∧ Forall (run_sorted a) runs.
Proof.
  assert (2 ≤ Py.len descending_tail) as Hlen by (unfold Py.len; simpl; lia).
  split; [exact Hlen|].
  apply (C7_runs_partition_the_array descending_tail (Oabs.block_size 10) Hlen).
  right. reflexivity.
Defined.

(** C8.  No subscript of either function is out of range: on every input
    both functions return (the model raises [IndexError] at any subscript
    outside [0 <= i < len]), and the empty list and the one-element lists
    leave through the guard [len(arr) <= 1] before any subscript. *)
Theorem C8_subscripts_in_bounds (arr : list Z) (x : Z) :
  (∃ e r, Abs.adaptive_block_sort_run arr = Ok (e, r))
  ∧ (∃ e r, Oabs.optimized_adaptive_block_sort_run arr = Ok (e, r))
  ∧ (∃ r, Abs.adaptive_block_sort arr = Ok r)
  ∧ (∃ r, Oabs.optimized_adaptive_block_sort arr = Ok r)
  ∧ Abs.adaptive_block_sort_run [] = Ok (ReturnTrivial, [])
  ∧ Oabs.optimized_adaptive_block_sort_run [] = Ok (ReturnTrivial, [])
  ∧ Abs.adaptive_block_sort_run [x] = Ok (ReturnTrivial, [x])
  ∧ Oabs.optimized_adaptive_block_sort_run [x] = Ok (ReturnTrivial, [x]).
Proof.
  destruct (adaptive_block_sort_run_spec arr) as (e & r & Hrun & _).
  destruct (optimized_adaptive_block_sort_run_spec arr)
    as (e' & r' & Hrun' & _).
  split; [by exists e, r|]. split; [by exists e', r'|].
  split; [exists r; unfold Abs.adaptive_block_sort; by rewrite Hrun|].
  split; [exists r'; unfold Oabs.optimized_adaptive_block_sort;
          by rewrite Hrun'|].
  done.
Qed.

(** C9, the claim as stated fails: for a list of 81 elements oabs.py takes
    the block size 8, and [max(8, floor(sqrt(81)))] is 9. *)
Lemma C9_counterexample :
  2 ≤ Py.len (replicate 81 0)
  ∧ Oabs.block_size (Py.len (replicate 81 0))
    ≠ spec_block_size 8 (Py.len (replicate 81 0)).
Proof. split; by vm_compute. Qed.

(** C9, amended.  For every length [n >= 2], with [s] the floor of the
    square root of [n]: abs.py takes [max(32, s)]; oabs.py takes
    [max(8, 2 * floor(s / 2))], the largest even number not above [s] when
    that is above 8, which is [s] or [s - 1]; both block sizes are at least
    1. *)
Theorem C9_block_size (n : Z) :
  2 ≤ n →
  ∃ s, 0 ≤ s ∧ s * s ≤ n < (s + 1) * (s + 1)
    ∧ Abs.block_size n = Z.max 32 s
    ∧ Abs.block_size n = spec_block_size 32 n
    ∧ Oabs.block_size n = Z.max 8 (2 * (s `div` 2))
    ∧ s - 1 ≤ 2 * (s `div` 2) ≤ s
    ∧ 1 ≤ Abs.block_size n
    ∧ 1 ≤ Oabs.block_size n.
Proof.
  intros Hn. exists (Z.sqrt n).
  pose proof (Z.sqrt_spec n ltac:(lia)) as Hspec.
  pose proof (Z.sqrt_nonneg n) as Hnonneg.
  pose proof (abs_block_size_pos n). pose proof (oabs_block_size_pos n).
  split; [done|]. split; [exact Hspec|]. split; [done|]. split; [done|].
  split.
  { unfold Oabs.block_size, Oabs.elements_per_cache_line,
      Oabs.cache_line_bytes, Oabs.element_size.
    change (64 `div` 8) with 8. by rewrite (Z.mul_comm _ 2). }
  pose proof (Z.div_mod (Z.sqrt n) 2 ltac:(lia)).
  pose proof (Z.mod_pos_bound (Z.sqrt n) 2 ltac:(lia)).
  lia.
Qed.

Lemma C9_witness :
  2 ≤ 81
  ∧ ∃ s, 0 ≤ s ∧ s * s ≤ 81 < (s + 1) * (s + 1)
      ∧ Abs.block_size 81 = Z.max 32 s
      ∧ Abs.block_size 81 = spec_block_size 32 81
      ∧ Oabs.block_size 81 = Z.max 8 (2 * (s `div` 2))
      ∧ s - 1 ≤ 2 * (s `div` 2) ≤ s
      ∧ 1 ≤ Abs.block_size 81
      ∧ 1 ≤ Oabs.block_size 81.
Proof.
  assert (2 ≤ 81) as Hn by lia.
  exact (conj Hn (C9_block_size 81 Hn)).
Defined.

(** C10.  In [optimized_adaptive_block_sort], on every input that reaches
    the merge phase, the merge loop returns and [write_index] is [n] when it
    exits; [range(write_index, n)] is then empty, the final adjustment loop
    has no iteration and returns the array untouched, and the function
    returns the array as the merge loop left it. *)
Theorem C10_final_adjustment_never_runs (arr a : list Z)
    (runs : list (Z * Z)) :
  let n := Py.len arr in
  let fuel := S (length arr) in
  1 < n →
  sort_blocks fuel n (Oabs.block_size n) arr = Ok a →
  detect_runs fuel a n = Ok runs →
  single_full_run runs n = Ok false →
  ∃ a',
    Oabs.merge_phase fuel a runs = Ok (a', n)
    ∧ Py.range n n 1 = []
    ∧ Oabs.final_adjustment fuel n n a' = Ok a'
    ∧ Oabs.optimized_adaptive_block_sort_run arr = Ok (ReturnMerged, a').
Proof.
  intros n fuel Hlen Hsort Hdetect Hfast.
  destruct (sort_blocks_spec fuel n (Oabs.block_size n) arr)
    as (a0 & Ha0 & Hlena & _);
    [apply oabs_block_size_pos|done|unfold fuel, n, Py.len; lia|].
  assert (a0 = a) as -> by congruence.
  destruct (detect_runs_spec fuel a n) as (runs0 & Hr0 & Hchain & _);
    [done|unfold fuel, n, Py.len; lia|].
  assert (runs0 = runs) as -> by congruence.
  destruct (merge_phase_spec a runs n (eq_sym Hlena) Hchain fuel)
    as (a' & Hmerge & Hlen'); [unfold fuel, n, Py.len; lia|].
  exists a'. split; [done|]. split; [apply range_nil; lia|].
  split; [apply final_adjustment_at_end|].
  unfold Oabs.optimized_adaptive_block_sort_run.
  destruct (Z.leb_spec (Py.len arr) 1); [unfold n in Hlen; lia|].
  fold n fuel. rewrite Hsort, bind_Ok, Hdetect, bind_Ok, Hfast, bind_Ok.
  by rewrite Hmerge, bind_Ok, final_adjustment_at_end.
Qed.

Lemma C10_witness :
  1 < Py.len descending_tail
  ∧ sort_blocks 11 10 (Oabs.block_size 10) descending_tail
    = Ok descending_tail
  ∧ detect_runs 11 descending_tail 10 = Ok [(0, 8); (8, 10)]
  ∧ single_full_run [(0, 8); (8, 10)] 10 = Ok false
  ∧ ∃ a',
      Oabs.merge_phase 11 descending_tail [(0, 8); (8, 10)] = Ok (a', 10)
      ∧ Py.range 10 10 1 = []
      ∧ Oabs.final_adjustment 11 10 10 a' = Ok a'
      ∧ Oabs.optimized_adaptive_block_sort_run descending_tail
        = Ok (ReturnMerged, a').
Proof.
  assert (1 < Py.len descending_tail) as H1 by (unfold Py.len; simpl; lia).
  assert (sort_blocks 11 10 (Oabs.block_size 10) descending_tail
          = Ok descending_tail) as H2 by (vm_compute; reflexivity).
  assert (detect_runs 11 descending_tail 10 = Ok [(0, 8); (8, 10)]) as H3
    by (vm_compute; reflexivity).
  assert (single_full_run [(0, 8); (8, 10)] 10 = Ok false) as H4
    by (vm_compute; reflexivity).
  exact (conj H1 (conj H2 (conj H3 (conj H4
    (C10_final_adjustment_never_runs descending_tail descending_tail
       [(0, 8); (8, 10)] H1 H2 H3 H4))))).
Defined.

(** ** Further properties: the insertion loop in full *)

Lemma shift_larger_shifted (fuel : nat) (orig cur : list Z) (i key k j : Z) :
  0 ≤ i → i - 1 ≤ k → k < j → j < Py.len orig → k - i + 1 < Z.of_nat fuel →
  shifted orig cur k j key →
  ∃ arr' k',
    shift_larger fuel cur i key k = Ok (arr', k')
    ∧ i - 1 ≤ k' ≤ k
    ∧ shifted orig arr' k' j key
    ∧ (k' = i - 1 ∨ ∃ v, orig !! Z.to_nat k' = Some v ∧ v ≤ key).
Proof.
  revert cur k. induction fuel as [|fuel IH];
    intros cur k Hi Hk Hkj Hj Hfuel Hsh; [lia|].
  destruct Hsh as (Hlen & Hlow & Hmid & Habove).
  simpl. destruct (Z.leb_spec i k); cycle 1.
  { exists cur, k. split; [done|]. split; [lia|]. split; [done|]. left. lia. }
  destruct (getitem_in_bounds cur k) as (ak & Hak & ->); [lia|].
  rewrite bind_Ok.
  assert (orig !! Z.to_nat k = Some ak) as Hok
    by (rewrite <- Hlow by lia; done).
  destruct (Z.ltb_spec key ak); cycle 1.
  { exists cur, k. split; [done|]. split; [lia|]. split; [done|].
    right. exists ak. split; [done|lia]. }
  rewrite bind_Ok, setitem_in_bounds, bind_Ok by lia.
  destruct (IH (<[Z.to_nat (k + 1) := ak]> cur) (k - 1))
    as (arr' & k' & -> & Hk' & Hsh' & Hstop); [lia..| |].
  { split; [by rewrite len_insert|]. split; [|split].
    - intros p Hp Hrange. rewrite list_lookup_insert_ne by lia.
      apply Hlow; lia.
    - intros p Hp. destruct (decide (p = k + 1)) as [->|].
      + rewrite list_lookup_insert_eq by (unfold Py.len in *; lia).
        by replace (k + 1 - 1) with k by lia.
      + rewrite list_lookup_insert_ne by lia. apply Hmid. lia.
    - intros p v Hp. destruct (decide (p = k + 1)) as [->|].
      + rewrite list_lookup_insert_eq by (unfold Py.len in *; lia).
        intros [= <-]. done.
      + rewrite list_lookup_insert_ne by lia. apply Habove. lia. }
  exists arr', k'. split; [done|]. split; [lia|]. done.
Qed.

(** One insertion: the array keeps its elements, the cells outside
    [[i, j]] are not touched, and a sorted segment [[i, j)] becomes the
    sorted segment [[i, j + 1)]. *)
Lemma insert_key_full (fuel : nat) (i j : Z) (arr : list Z) :
  0 ≤ i < j → j < Py.len arr → j - i < Z.of_nat fuel →
  ∃ arr', insert_key fuel i j arr = Ok arr'
    ∧ Py.len arr' = Py.len arr ∧ arr' ≡ₚ arr
    ∧ same_outside arr arr' i (j + 1)
    ∧ (run_sorted arr (i, j) → run_sorted arr' (i, j + 1)).
Proof.
  intros Hi Hj Hfuel.
  destruct (insert_key_spec fuel i j arr Hi Hj Hfuel)
    as (final & Hfinal & Hlenf & Hperm).
  exists final. split; [done|]. split; [done|]. split; [done|].
  unfold insert_key in Hfinal.
  destruct (getitem_in_bounds arr j) as (key & Hkey & Hget); [lia|].
  rewrite Hget, bind_Ok in Hfinal.
  destruct (shift_larger_shifted fuel arr arr i key (j - 1) j)
    as (arr' & k' & Hshift & Hk' & (Hlen & Hlow & Hmid & Habove) & Hstop);
    [lia..| |].
  { split; [done|]. split; [done|]. split; intros; lia. }
  rewrite Hshift, bind_Ok, setitem_in_bounds in Hfinal by lia.
  injection Hfinal as <-.
  assert (Z.to_nat (k' + 1) < length arr')%nat as Hin
    by (unfold Py.len in *; lia).
  split.
  - intros p Hp Hout. rewrite list_lookup_insert_ne by lia.
    apply Hlow; lia.
  - intros Hrun p x y; simpl; intros Hp1 Hp2.
    destruct (decide (p + 1 ≤ k')) as [Hcase|Hcase].
    { rewrite !list_lookup_insert_ne by lia.
      rewrite !Hlow by lia. apply Hrun; simpl; lia. }
    destruct (decide (p = k')) as [->|Hne].
    { rewrite list_lookup_insert_ne by lia.
      rewrite list_lookup_insert_eq by done. rewrite Hlow by lia.
      intros Hx [= <-]. destruct Hstop as [|(v & Hv & Hle)]; [lia|].
      assert (x = v) by congruence. lia. }
    destruct (decide (p = k' + 1)) as [->|Hne'].
    { rewrite list_lookup_insert_eq by done.
      rewrite list_lookup_insert_ne by lia.
      intros [= <-] Hy. assert (key < y); [|lia].
      apply (Habove (k' + 1 + 1)); [lia|done]. }
    rewrite !list_lookup_insert_ne by lia.
    rewrite !Hmid by lia. replace (p + 1 - 1) with (p - 1 + 1) by lia.
    apply Hrun; simpl; lia.
Qed.

Lemma same_outside_refl (a : list Z) (lo hi : Z) : same_outside a a lo hi.
Proof. by intros p. Qed.

Lemma same_outside_trans (a b c : list Z) (lo hi lo' hi' : Z) :
  lo' ≤ lo → hi ≤ hi' →
  same_outside a b lo hi → same_outside b c lo' hi' →
  same_outside a c lo' hi'.
Proof.
  intros Hlo Hhi Hab Hbc p Hp Hout.
  rewrite Hbc by done. apply Hab; [done|lia].
Qed.

Lemma run_sorted_ext (a a' : list Z) (s e : Z) :
  0 ≤ s →
  (∀ p, s ≤ p < e → a' !! Z.to_nat p = a !! Z.to_nat p) →
  run_sorted a (s, e) → run_sorted a' (s, e).
Proof.
  intros Hs Hsame Hrun p x y; simpl; intros Hp1 Hp2.
  rewrite !Hsame by lia. apply Hrun; simpl; lia.
Qed.

Lemma lookup_slice (a : list Z) (s e : Z) (t : nat) :
  0 ≤ s →
  slice a s e !! t
  = if decide (Z.of_nat t < e - s) then a !! Z.to_nat (s + Z.of_nat t)
    else None.
Proof.
  intros Hs. unfold slice. destruct (decide (Z.of_nat t < e - s)).
  - rewrite lookup_take_lt by lia. rewrite lookup_drop. f_equal. lia.
  - apply lookup_take_ge. lia.
Qed.

Lemma slice_ext (a a' : list Z) (s e : Z) :
  0 ≤ s →
  (∀ p, s ≤ p < e → a' !! Z.to_nat p = a !! Z.to_nat p) →
  slice a' s e = slice a s e.
Proof.
  intros Hs Hsame. apply list_eq. intros t. rewrite !lookup_slice by done.
  destruct (decide (Z.of_nat t < e - s)); [|done]. apply Hsame. lia.
Qed.

Lemma slice_perm_frame (a a' : list Z) (s e : Z) :
  a' ≡ₚ a → 0 ≤ s ≤ e → e ≤ Py.len a →
  same_outside a a' s e → slice a' s e ≡ₚ slice a s e.
Proof.
  intros Hperm Hs He Hout.
  assert (Py.len a' = Py.len a) as Hlen
    by (unfold Py.len; by rewrite (Permutation_length Hperm)).
  assert (∀ b : list Z, e ≤ Py.len b →
            b = slice b 0 s ++ slice b s e ++ slice b e (Py.len b)) as Hsplit.
  { intros b Hb. rewrite (slice_app b s e) by lia.
    rewrite (slice_app b 0 s) by lia. by rewrite slice_all. }
  rewrite (Hsplit a He), (Hsplit a') in Hperm by lia.
  rewrite (slice_ext a a' 0 s) in Hperm by (lia || intros; apply Hout; lia).
  rewrite Hlen in Hperm.
  rewrite (slice_ext a a' e (Py.len a)) in Hperm
    by (lia || intros; apply Hout; lia).
  apply Permutation_app_inv_l in Hperm.
  by apply Permutation_app_inv_r in Hperm.
Qed.

(** ** Further properties: step 1 sorts every block *)

Lemma sort_block_full (fuel : nat) (n block_size i : Z) (arr : list Z) :
  0 ≤ i < n → 0 < block_size → n = Py.len arr → n < Z.of_nat fuel →
  ∃ arr', sort_block fuel n block_size i arr = Ok arr'
    ∧ Py.len arr' = Py.len arr ∧ arr' ≡ₚ arr
    ∧ same_outside arr arr' i (block_end n block_size i)
    ∧ run_sorted arr' (i, block_end n block_size i).
Proof.
  intros Hi Hbs Hn Hfuel. unfold sort_block, block_end.
  set (e := Z.min (i + block_size) n).
  destruct (for_each_range_invariant
              (λ j a, Py.len a = Py.len arr ∧ a ≡ₚ arr
                      ∧ same_outside arr a i e ∧ run_sorted a (i, j))
              (insert_key fuel i) (i + 1) e arr)
    as (a & -> & Hlen & Hperm & Hout & Hrun).
  - unfold e. lia.
  - split; [done|]. split; [done|]. split; [apply same_outside_refl|].
    intros p x y; simpl; lia.
  - intros j a Hj (Hlen & Hperm & Hout & Hrun).
    destruct (insert_key_full fuel i j a)
      as (a' & -> & Hlen' & Hperm' & Hout' & Hrun'); [unfold e in Hj; lia..|].
    exists a'. split; [done|]. split; [congruence|].
    split; [by rewrite Hperm'|]. split; [|by apply Hrun'].
    eapply (same_outside_trans arr a a' i e i e); [lia|lia|done|].
    intros p Hp Hrange. apply Hout'; [done|lia].
  - by exists a.
Qed.

(** A loop over [range(lo, hi, step)] with an invariant indexed by the loop
    variable; [last] is the first value of the variable that is not below
    [hi]. *)
Lemma for_each_step_invariant {S : Type} (P : Z → S → Prop)
    (body : Z → S → outcome S) (lo hi step : Z) (s : S) :
  0 < step → P lo s →
  (∀ x s0, lo ≤ x < hi → P x s0 →
           ∃ s1, body x s0 = Ok s1 ∧ P (x + step) s1) →
  ∃ s' last, Py.for_each body (Py.range lo hi step) s = Ok s'
    ∧ hi ≤ last ∧ lo ≤ last ∧ P last s'.
Proof.
  intros Hstep. remember (Z.to_nat (hi - lo)) as d eqn:Hd.
  assert (Z.to_nat (hi - lo) ≤ d)%nat as Hle by lia. clear Hd.
  revert lo s Hle. induction d as [|d IH]; intros lo s Hle Hs Hbody.
  - rewrite range_nil by lia. simpl. exists s, lo. repeat split; [lia|lia|done].
  - destruct (decide (lo < hi)) as [Hlt|Hge]; cycle 1.
    { rewrite range_nil by lia. simpl. exists s, lo.
      repeat split; [lia|lia|done]. }
    rewrite range_cons by lia. simpl.
    destruct (Hbody lo s) as (s1 & -> & Hs1); [lia|done|].
    rewrite bind_Ok.
    destruct (IH (lo + step) s1) as (s' & last & -> & Hlast & Hlo & HP);
      [lia|done| |].
    { intros x s0 Hx. apply Hbody. lia. }
    exists s', last. repeat split; [lia|lia|done].
Qed.

(** Step 1 in full: the array keeps its elements, and every block
    [[b, min(b + block_size, n))] is in order and holds the elements the
    same block held in the input. *)
Lemma sort_blocks_full (fuel : nat) (n block_size : Z) (arr : list Z) :
  0 < block_size → n = Py.len arr → n < Z.of_nat fuel →
  ∃ arr', sort_blocks fuel n block_size arr = Ok arr'
    ∧ Py.len arr' = Py.len arr ∧ arr' ≡ₚ arr
    ∧ ∀ b, 0 ≤ b < n → b `mod` block_size = 0 →
        run_sorted arr' (b, block_end n block_size b)
        ∧ slice arr' b (block_end n block_size b)
          ≡ₚ slice arr b (block_end n block_size b).
Proof.
  intros Hbs Hn Hfuel. unfold sort_blocks.
  destruct (for_each_step_invariant
              (λ x a, Py.len a = Py.len arr ∧ a ≡ₚ arr
                      ∧ 0 ≤ x ∧ x `mod` block_size = 0
                      ∧ (∀ p, x ≤ p → a !! Z.to_nat p = arr !! Z.to_nat p)
                      ∧ ∀ b, 0 ≤ b < n → b < x → b `mod` block_size = 0 →
                          run_sorted a (b, block_end n block_size b)
                          ∧ slice a b (block_end n block_size b)
                            ≡ₚ slice arr b (block_end n block_size b))
              (sort_block fuel n block_size) 0 n block_size arr)
    as (a & last & -> & Hlast & _ & Hlen & Hperm & _ & _ & _ & Hblocks).
  - done.
  - split; [done|]. split; [done|]. split; [done|].
    split; [by rewrite Z.mod_0_l by lia|]. split; [done|]. intros; lia.
  - intros x a Hx (Hlen & Hperm & Hx0 & Hxmod & Hrest & Hblocks).
    destruct (sort_block_full fuel n block_size x a)
      as (a' & -> & Hlen' & Hperm' & Hout & Hrun); [lia|done|lia|done|].
    exists a'. split; [done|]. split; [congruence|].
    split; [by rewrite Hperm'|]. split; [lia|].
    split; [by rewrite <- Zplus_mod_idemp_r, Z.mod_same, Z.add_0_r by lia|].
    assert (x < block_end n block_size x ≤ x + block_size) as He
      by (unfold block_end; lia).
    split.
    { intros p Hp. rewrite Hout by lia. apply Hrest. lia. }
    intros b Hb Hbx Hbmod.
    destruct (decide (b = x)) as [->|Hne].
    + split; [done|].
      rewrite (slice_perm_frame a a' x (block_end n block_size x))
        by (done || unfold block_end; lia).
      rewrite (slice_ext arr a x (block_end n block_size x)); [done|lia|].
      intros p Hp. apply Hrest. lia.
    + assert (b + block_size ≤ x) as Hbelow.
      { pose proof (Z.div_mod b block_size ltac:(lia)) as Hb1.
        pose proof (Z.div_mod x block_size ltac:(lia)) as Hx1.
        rewrite Hbmod in Hb1. rewrite Hxmod in Hx1.
        assert (b `div` block_size < x `div` block_size + 1) by nia.
        assert (b `div` block_size ≠ x `div` block_size) by (intros Heq; nia).
        nia. }
      assert (block_end n block_size b ≤ x) as Hend
        by (unfold block_end; lia).
      assert (∀ p, b ≤ p < block_end n block_size b →
                a' !! Z.to_nat p = a !! Z.to_nat p) as Hsame.
      { intros p Hp. apply Hout; lia. }
      destruct (Hblocks b Hb ltac:(lia) Hbmod) as [Hrunb Hpermb].
      split; [apply (run_sorted_ext a a'); [lia|done|done]|].
      by rewrite (slice_ext a a' b (block_end n block_size b)) by (lia || done).
  - exists a. split; [done|]. split; [done|]. split; [done|].
    intros b Hb Hbmod. apply Hblocks; [done|lia|done].
Qed.

(** ** Further properties: benchmark.py *)

Lemma sorted_perm_reference (r arr : list Z) :
  StronglySorted Z.le r → r ≡ₚ arr → r = reference_sort arr.
Proof.
  intros Hsorted Hperm. unfold reference_sort.
  apply (StronglySorted_unique Z.le); [done| |].
  - apply StronglySorted_merge_sort; apply _.
  - by rewrite merge_sort_Permutation.
Qed.

Lemma nondecreasing_run_sorted (arr : list Z) (s e : Z) :
  0 ≤ s → nondecreasing arr → run_sorted arr (s, e).
Proof.
  intros Hs Hsorted p x y; simpl; intros Hp1 Hp2 Hx Hy.
  apply (Hsorted (Z.to_nat p)); [done|].
  by replace (S (Z.to_nat p)) with (Z.to_nat (p + 1)) by lia.
Qed.

Lemma insertion_sort_spec (arr : list Z) :
  ∃ r, Benchmark.insertion_sort arr = Ok r
    ∧ StronglySorted Z.le r ∧ r ≡ₚ arr.
Proof.
  unfold Benchmark.insertion_sort.
  destruct (decide (Py.len arr = 0)) as [Hzero|Hpos].
  { rewrite range_nil by lia. simpl. exists arr. split; [done|].
    split; [apply short_list_sorted; lia|done]. }
  pose proof (len_nonneg arr) as Hnn.
  destruct (for_each_range_invariant
              (λ j a, Py.len a = Py.len arr ∧ a ≡ₚ arr ∧ run_sorted a (0, j))
              (insert_key (S (length arr)) 0) 1 (Py.len arr) arr)
    as (a & -> & Hlen & Hperm & Hrun).
  - lia.
  - split; [done|]. split; [done|]. intros p x y; simpl; lia.
  - intros j a Hj (Hlen & Hperm & Hrun).
    destruct (insert_key_full (S (length arr)) 0 j a)
      as (a' & -> & Hlen' & Hperm' & _ & Hrun');
      [lia|lia|unfold Py.len in *; lia|].
    exists a'. split; [done|]. split; [congruence|].
    split; [by rewrite Hperm'|by apply Hrun'].
  - exists a. split; [done|]. split; [|done].
    apply nondecreasing_StronglySorted.
    by apply (run_sorted_full a (Py.len arr)).
Qed.

Lemma all_adjacent_le_spec (arr : list Z) (lo hi : Z) :
  0 ≤ lo → hi < Py.len arr →
  ∃ b, Benchmark.all_adjacent_le arr (Py.range lo hi 1) = Ok b
    ∧ (b = true ↔ run_sorted arr (lo, hi + 1)).
Proof.
  intros Hlo Hhi. remember (Z.to_nat (hi - lo)) as d eqn:Hd.
  revert lo Hlo Hd. induction d as [|d IH]; intros lo Hlo Hd.
  - rewrite range_nil by lia. simpl. exists true. split; [done|].
    split; [|done]. intros _ p x y; simpl; lia.
  - rewrite range_cons by lia. simpl.
    destruct (getitem_in_bounds arr lo) as (x & Hx & ->); [lia|].
    destruct (getitem_in_bounds arr (lo + 1)) as (y & Hy & ->); [lia|].
    rewrite !bind_Ok. destruct (Z.leb_spec x y) as [Hle|Hgt].
    + destruct (IH (lo + 1)) as (b & -> & Hb); [lia|lia|].
      exists b. split; [done|]. rewrite Hb. split.
      * intros Hrun p x' y'; simpl; intros Hp1 Hp2 Hx' Hy'.
        destruct (decide (p = lo)) as [->|]; [congruence|].
        apply (Hrun p); simpl; (done || lia).
      * intros Hrun p x' y'; simpl; intros Hp1 Hp2.
        apply (Hrun p); simpl; lia.
    + exists false. split; [done|]. split; [done|].
      intros Hrun. assert (x ≤ y); [|lia].
      apply (Hrun lo); simpl; (done || lia).
Qed.

Lemma verify_sorted_spec (arr : list Z) :
  ∃ b, Benchmark.verify_sorted arr = Ok b ∧ (b = true ↔ nondecreasing arr).
Proof.
  unfold Benchmark.verify_sorted.
  destruct (all_adjacent_le_spec arr 0 (Py.len arr - 1)) as (b & -> & Hb);
    [lia|lia|].
  exists b. split; [done|]. rewrite Hb.
  replace (Py.len arr - 1 + 1) with (Py.len arr) by lia. split.
  - intros Hrun. by apply (run_sorted_full arr (Py.len arr)).
  - by apply nondecreasing_run_sorted.
Qed.

Lemma length_slice_to_end (a : list Z) (i : Z) :
  0 ≤ i ≤ Py.len a →
  Z.of_nat (length (slice a i (Py.len a))) = Py.len a - i.
Proof.
  intros Hi. unfold slice, Py.len in *.
  rewrite length_take, length_drop. lia.
Qed.

Lemma benchmark_merge_loop_spec (fuel : nat) (left right : list Z) (i j : Z)
    (result : list Z) :
  0 ≤ i ≤ Py.len left → 0 ≤ j ≤ Py.len right →
  (Py.len left - i) + (Py.len right - j) < Z.of_nat fuel →
  ∃ r, Benchmark.merge_loop fuel left right i j result = Ok r
    ∧ r ≡ₚ result ++ slice left i (Py.len left)
             ++ slice right j (Py.len right)
    ∧ (StronglySorted Z.le (slice left i (Py.len left)) →
       StronglySorted Z.le (slice right j (Py.len right)) →
       StronglySorted Z.le result →
       (∀ x y, x ∈ result →
               y ∈ slice left i (Py.len left)
                   ++ slice right j (Py.len right) → x ≤ y) →
       StronglySorted Z.le r).
Proof.
  revert i j result.
  induction fuel as [|fuel IH]; intros i j result Hi Hj Hfuel; [lia|].
  simpl.
  destruct (Z.ltb_spec i (Py.len left)) as [Hil|Hil];
    [destruct (Z.ltb_spec j (Py.len right)) as [Hjr|Hjr]|]; simpl; cycle 1.
  - eexists. split; [done|]. rewrite <- app_assoc. split; [done|].
    intros HL _ Hres Hle. rewrite (slice_empty right) in * by lia.
    rewrite app_nil_r in *. by apply StronglySorted_app_2.
  - eexists. split; [done|]. rewrite <- app_assoc. split; [done|].
    intros _ HR Hres Hle. rewrite (slice_empty left) in * by lia.
    simpl in *. by apply StronglySorted_app_2.
  - destruct (getitem_in_bounds left i) as (x & Hx & ->); [lia|].
    destruct (getitem_in_bounds right j) as (y & Hy & ->); [lia|].
    rewrite !bind_Ok.
    rewrite (slice_cons left i (Py.len left) x) by (lia || done).
    rewrite (slice_cons right j (Py.len right) y) by (lia || done).
    destruct (Z.leb_spec x y) as [Hle|Hgt].
    + destruct (IH (i + 1) j (result ++ [x])) as (r & -> & Hperm & Hsorted);
        [lia..|].
      exists r. split; [done|].
      rewrite (slice_cons right j (Py.len right) y) in Hperm, Hsorted
        by (lia || done).
      split; [by rewrite Hperm, <- app_assoc|].
      intros HL HR Hres Hbelow. apply StronglySorted_inv in HL as [HL HxL].
      apply Hsorted; [done|done| |].
      * apply StronglySorted_app_2; [|done|repeat constructor].
        intros x1 x2 Hx1 Hx2. apply list_elem_of_singleton in Hx2 as ->.
        apply Hbelow; [done|]. left.
      * intros x1 y1 Hx1 Hy1. apply elem_of_app in Hx1 as [Hx1|Hx1].
        { apply Hbelow; [done|]. rewrite elem_of_app in Hy1.
          rewrite elem_of_app, elem_of_cons. tauto. }
        apply list_elem_of_singleton in Hx1 as ->.
        apply elem_of_app in Hy1 as [Hy1|Hy1].
        { by apply (proj1 (Forall_forall _ _) HxL). }
        apply StronglySorted_inv in HR as [_ HyR].
        apply elem_of_cons in Hy1 as [->|Hy1]; [done|].
        pose proof (proj1 (Forall_forall _ _) HyR y1 Hy1). lia.
    + destruct (IH i (j + 1) (result ++ [y])) as (r & -> & Hperm & Hsorted);
        [lia..|].
      exists r. split; [done|].
      rewrite (slice_cons left i (Py.len left) x) in Hperm, Hsorted
        by (lia || done).
      split.
      { rewrite Hperm, <- app_assoc. f_equiv. simpl.
        rewrite <- Permutation_middle. apply perm_swap. }
      intros HL HR Hres Hbelow. apply StronglySorted_inv in HR as [HR HyR].
      apply Hsorted; [done|done| |].
      * apply StronglySorted_app_2; [|done|repeat constructor].
        intros x1 x2 Hx1 Hx2. apply list_elem_of_singleton in Hx2 as ->.
        apply Hbelow; [done|]. apply elem_of_app. right. left.
      * intros x1 y1 Hx1 Hy1. apply elem_of_app in Hx1 as [Hx1|Hx1].
        { apply Hbelow; [done|]. apply elem_of_app.
          apply elem_of_app in Hy1 as [Hy1|Hy1]; [by left|right].
          apply elem_of_cons. by right. }
        apply list_elem_of_singleton in Hx1 as ->.
        apply elem_of_app in Hy1 as [Hy1|Hy1].
        { apply StronglySorted_inv in HL as [_ HxL].
          apply elem_of_cons in Hy1 as [->|Hy1]; [lia|].
          pose proof (proj1 (Forall_forall _ _) HxL y1 Hy1). lia. }
        by apply (proj1 (Forall_forall _ _) HyR).
Qed.

Lemma benchmark_merge_spec (left right : list Z) :
  ∃ r, Benchmark.merge left right = Ok r
    ∧ r ≡ₚ left ++ right
    ∧ (StronglySorted Z.le left → StronglySorted Z.le right →
       StronglySorted Z.le r).
Proof.
  unfold Benchmark.merge.
  destruct (benchmark_merge_loop_spec (S (length left + length right)) left right 0 0 [])
    as (r & -> & Hperm & Hsorted);
    [pose proof (len_nonneg left); lia|pose proof (len_nonneg right); lia
    |unfold Py.len; lia|].
  rewrite !slice_all in *. exists r. split; [done|]. split; [done|].
  intros HL HR. apply Hsorted; [done|done|constructor|].
  intros x y Hx. by apply elem_of_nil in Hx.
Qed.

Lemma mergesort_rec_spec (fuel : nat) (arr : list Z) :
  (length arr < fuel)%nat →
  ∃ r, Benchmark.mergesort_rec fuel arr = Ok r
    ∧ StronglySorted Z.le r ∧ r ≡ₚ arr.
Proof.
  revert arr. induction fuel as [|fuel IH]; intros arr Hfuel; [lia|].
  simpl. destruct (Z.leb_spec (Py.len arr) 1) as [Hshort|Hlong].
  { exists arr. split; [done|]. split; [by apply short_list_sorted|done]. }
  set (mid := Py.len arr `div` 2).
  assert (1 ≤ mid < Py.len arr) as Hmid.
  { unfold mid. split; [apply Z.div_le_lower_bound; lia|].
    apply Z.div_lt_upper_bound; lia. }
  assert (slice arr 0 mid ++ slice arr mid (Py.len arr) = arr) as Hsplit.
  { rewrite slice_app by lia. apply slice_all. }
  destruct (IH (slice arr 0 mid)) as (l & -> & Hl & Hpl).
  { unfold slice, Py.len in *. rewrite length_take, length_drop. lia. }
  destruct (IH (slice arr mid (Py.len arr))) as (r & -> & Hr & Hpr).
  { pose proof (length_slice_to_end arr mid ltac:(lia)). unfold Py.len in *.
    lia. }
  rewrite !bind_Ok.
  destruct (benchmark_merge_spec l r) as (m & -> & Hpm & Hm).
  exists m. split; [done|]. split; [by apply Hm|].
  by rewrite Hpm, Hpl, Hpr, Hsplit.
Qed.




(** ** Further properties: the runs and the blocks *)

Lemma detect_runs_from_maximal (scan_fuel fuel : nat) (arr : list Z) (n i : Z)
    (runs : list (Z * Z)) :
  n = Py.len arr → 0 ≤ i ≤ n →
  n ≤ Z.of_nat scan_fuel → n - i + 1 ≤ Z.of_nat fuel →
  Forall (run_maximal arr n) runs →
  ∃ runs', detect_runs_from scan_fuel fuel arr n i runs = Ok runs'
    ∧ Forall (run_maximal arr n) runs'.
Proof.
  intros Hn Hi Hsf. revert i runs Hi.
  induction fuel as [|fuel IH]; intros i runs Hi Hfuel Hmax; [lia|].
  simpl. destruct (Z.ltb_spec i n); [|by exists runs].
  destruct (scan_run_spec scan_fuel arr n i) as (i' & -> & Hi' & _ & Hdesc);
    [done|lia|lia|].
  rewrite bind_Ok. apply IH; [lia|lia|].
  apply Forall_app. split; [done|]. constructor; [|done].
  intros Hlt. simpl in *. replace (i' + 1 - 1) with i' by lia.
  by apply Hdesc.
Qed.

Lemma detect_runs_maximal (fuel : nat) (arr : list Z) (n : Z) :
  n = Py.len arr → n < Z.of_nat fuel →
  ∃ runs, detect_runs fuel arr n = Ok runs
    ∧ runs_chain 0 runs n ∧ Forall (run_sorted arr) runs
    ∧ Forall (run_maximal arr n) runs.
Proof.
  intros Hn Hfuel.
  destruct (detect_runs_spec fuel arr n Hn Hfuel)
    as (runs & Hruns & Hchain & Hsorted).
  exists runs. split; [done|]. split; [done|]. split; [done|].
  unfold detect_runs in Hruns.
  destruct (detect_runs_from_maximal fuel fuel arr n 0 []) as (runs' & Hr & H);
    [done|pose proof (len_nonneg arr); lia|lia|lia|done|].
  congruence.
Qed.

(** A descent of an array whose blocks are in order sits on a block
    boundary. *)
Lemma descent_at_block_boundary (a : list Z) (n block_size e x y : Z) :
  0 < block_size →
  (∀ b, 0 ≤ b < n → b `mod` block_size = 0 →
        run_sorted a (b, block_end n block_size b)) →
  0 < e < n → a !! Z.to_nat (e - 1) = Some x → a !! Z.to_nat e = Some y →
  y < x → e `mod` block_size = 0.
Proof.
  intros Hbs Hblocks He Hx Hy Hyx.
  destruct (decide (e `mod` block_size = 0)) as [|Hne]; [done|exfalso].
  pose proof (Z.div_mod e block_size ltac:(lia)) as Hdiv.
  pose proof (Z.mod_pos_bound e block_size Hbs) as Hmod.
  set (b := block_size * (e `div` block_size)) in *.
  assert (0 ≤ b) by (apply Z.mul_nonneg_nonneg; [lia|apply Z.div_pos; lia]).
  assert (run_sorted a (b, block_end n block_size b)) as Hrun.
  { apply Hblocks; [lia|]. unfold b. by rewrite Z.mul_comm, Z_mod_mult. }
  assert (x ≤ y); [|lia].
  apply (Hrun (e - 1) x y); simpl.
  - lia.
  - unfold block_end. lia.
  - done.
  - by replace (e - 1 + 1) with e by lia.
Qed.

Lemma runs_aligned (a : list Z) (n block_size lo : Z) (runs : list (Z * Z)) :
  0 < block_size →
  (∀ b, 0 ≤ b < n → b `mod` block_size = 0 →
        run_sorted a (b, block_end n block_size b)) →
  0 ≤ lo → lo `mod` block_size = 0 →
  runs_chain lo runs n → Forall (run_maximal a n) runs →
  Forall (λ r, r.1 `mod` block_size = 0) runs.
Proof.
  intros Hbs Hblocks. revert lo.
  induction runs as [|r runs IH]; intros lo Hlo Hmod Hchain Hmax; [done|].
  destruct Hchain as (Hr & Hne & Hrest).
  apply Forall_cons in Hmax as [Hmaxr Hmax].
  constructor; [by rewrite Hr|].
  destruct runs as [|r' runs]; [done|].
  apply (IH r.2); [lia| |done|done].
  destruct (runs_chain_lookup r.2 n (r' :: runs) 0 r' Hrest eq_refl)
    as (? & ? & ?).
  destruct Hmaxr as (x & y & Hx & Hy & Hyx); [lia|].
  by apply (descent_at_block_boundary a n block_size r.2 x y); try lia.
Qed.

Lemma aligned_runs_count (block_size lo hi : Z) (runs : list (Z * Z)) :
  0 < block_size → runs ≠ [] →
  runs_chain lo runs hi → Forall (λ r, r.1 `mod` block_size = 0) runs →
  lo + (Z.of_nat (length runs) - 1) * block_size < hi.
Proof.
  intros Hbs. revert lo. induction runs as [|r runs IH]; intros lo Hne; [done|].
  intros (Hr & Hlt & Hrest) Hal. apply Forall_cons in Hal as [Hr0 Hal].
  destruct runs as [|r' runs].
  { simpl in *. lia. }
  specialize (IH r.2 ltac:(done) Hrest Hal).
  destruct Hrest as (Hr' & _ & _).
  apply Forall_cons in Hal as [Hr'0 _].
  assert (lo + block_size ≤ r.2).
  { rewrite <- Hr' , <- Hr.
    pose proof (Z.div_mod r.1 block_size ltac:(lia)) as H1.
    pose proof (Z.div_mod r'.1 block_size ltac:(lia)) as H2.
    rewrite Hr0 in H1. rewrite Hr'0 in H2.
    assert (r.1 `div` block_size < r'.1 `div` block_size) by nia. nia. }
  cbn [length] in *. nia.
Qed.

(** The [return] of the fast path, on an array already in order. *)
Lemma abs_run_nondecreasing (arr : list Z) :
  nondecreasing arr → 2 ≤ Py.len arr →
  Abs.adaptive_block_sort_run arr = Ok (ReturnFastPath, arr).
Proof.
  intros Hsorted Hlen. unfold Abs.adaptive_block_sort_run.
  destruct (Z.leb_spec (Py.len arr) 1); [lia|].
  rewrite sort_blocks_nondecreasing, bind_Ok;
    [|done|apply abs_block_size_pos|done|lia].
  rewrite detect_runs_nondecreasing, bind_Ok;
    [|done|done|lia|unfold Py.len; lia].
  by rewrite single_full_run_whole.
Qed.

Lemma oabs_run_nondecreasing (arr : list Z) :
  nondecreasing arr → 2 ≤ Py.len arr →
  Oabs.optimized_adaptive_block_sort_run arr = Ok (ReturnFastPath, arr).
Proof.
  intros Hsorted Hlen. unfold Oabs.optimized_adaptive_block_sort_run.
  destruct (Z.leb_spec (Py.len arr) 1); [lia|].
  rewrite sort_blocks_nondecreasing, bind_Ok;
    [|done|apply oabs_block_size_pos|done|lia].
  rewrite detect_runs_nondecreasing, bind_Ok;
    [|done|done|lia|unfold Py.len; lia].
  by rewrite single_full_run_whole.
Qed.

(** ** Further properties: what the in-place merge keeps *)

Lemma for_each_preserves {S : Type} (Q : S → Prop)
    (body : Z → S → outcome S) (xs : list Z) (s s' : S) :
  Py.for_each body xs s = Ok s' → Q s →
  (∀ x s0 s1, body x s0 = Ok s1 → Q s0 → Q s1) → Q s'.
Proof.
  revert s. induction xs as [|x xs IH]; intros s; simpl.
  - intros [= <-]. done.
  - intros Hrun Hs Hbody. apply bind_Ok_inv in Hrun as (s1 & Hs1 & Hrun).
    apply (IH s1); [done| |done]. by apply (Hbody x s).
Qed.

Lemma elem_of_concat (x : Z) (ls : list (list Z)) :
  x ∈ concat ls ↔ ∃ l, l ∈ ls ∧ x ∈ l.
Proof.
  induction ls as [|l ls IH]; simpl.
  - split; [by intros ?%elem_of_nil|]. intros (l & Hl & _).
    by apply elem_of_nil in Hl.
  - rewrite elem_of_app, IH. split.
    + intros [Hx|(l' & Hl' & Hx)]; [exists l; split; [left|done]|].
      exists l'. split; [by right|done].
    + intros (l' & Hl' & Hx). apply elem_of_cons in Hl' as [->|Hl'];
        [by left|right]. by exists l'.
Qed.

(** The pairs that [push_next] adds carry values read from [arr]. *)
Lemma push_next_values (P : Z → Prop) (arr block_ends : list Z) (block_id : Z)
    (st st' : list Heapq.item * list Z) :
  push_next arr block_ends block_id st = Ok st' →
  Forall P arr → Forall (λ it : Heapq.item, P it.1) st.1 →
  Forall (λ it : Heapq.item, P it.1) st'.1.
Proof.
  destruct st as [heap block_indices]. unfold push_next. intros Hrun Harr Hheap.
  apply bind_Ok_inv in Hrun as (c & _ & Hrun).
  apply bind_Ok_inv in Hrun as (e & _ & Hrun).
  destruct (c <? e); [|by injection Hrun as <-].
  apply bind_Ok_inv in Hrun as (pos & _ & Hrun).
  apply bind_Ok_inv in Hrun as (v & Hv & Hrun).
  apply bind_Ok_inv in Hrun as (cur & _ & Hrun).
  apply bind_Ok_inv in Hrun as (bi' & _ & Hrun).
  injection Hrun as <-. simpl. constructor; [|done]. simpl.
  apply getitem_Ok_inv in Hv as [_ Hv]. by eapply Forall_lookup_1.
Qed.

Lemma merge_in_place_values (P : Z → Prop) (fuel : nat) (block_ends : list Z)
    (heap : list Heapq.item) (block_indices arr : list Z) (w : Z)
    (r : list Z * Z) :
  Oabs.merge_in_place fuel block_ends heap block_indices arr w = Ok r →
  Forall P arr → Forall (λ it : Heapq.item, P it.1) heap → Forall P r.1.
Proof.
  revert heap block_indices arr w.
  induction fuel as [|fuel IH]; intros heap block_indices arr w; [done|].
  destruct heap as [|x heap0]; [by intros [= <-]|].
  cbn [Oabs.merge_in_place Heapq.heappop].
  destruct (Heapq.pop_min x heap0) as [[val block_id] rest] eqn:Hpop.
  rewrite bind_Ok. intros Hrun Harr Hheap.
  destruct (pop_min_spec _ _ _ _ Hpop) as (Hperm & _ & _).
  rewrite Hperm in Hheap. apply Forall_cons in Hheap as [Hval Hrest].
  apply bind_Ok_inv in Hrun as (arr1 & Harr1 & Hrun).
  apply setitem_Ok_inv in Harr1 as [_ ->].
  apply bind_Ok_inv in Hrun as ([heap' bi'] & Hpush & Hrun).
  apply (IH _ _ _ _ Hrun); [by apply Forall_insert|].
  apply (push_next_values P _ _ _ _ _ Hpush); [by apply Forall_insert|done].
Qed.

(** The cells below [write_index] are final. *)
Lemma merge_in_place_prefix (fuel : nat) (block_ends : list Z)
    (heap : list Heapq.item) (block_indices arr : list Z) (w : Z)
    (r : list Z * Z) (p : nat) :
  Oabs.merge_in_place fuel block_ends heap block_indices arr w = Ok r →
  Z.of_nat p < w → r.1 !! p = arr !! p.
Proof.
  revert heap block_indices arr w.
  induction fuel as [|fuel IH]; intros heap block_indices arr w; [done|].
  destruct heap as [|x heap0]; [by intros [= <-]|].
  cbn [Oabs.merge_in_place Heapq.heappop].
  destruct (Heapq.pop_min x heap0) as [[val block_id] rest].
  rewrite bind_Ok. intros Hrun Hp.
  apply bind_Ok_inv in Hrun as (arr1 & Harr1 & Hrun).
  apply setitem_Ok_inv in Harr1 as [Hw ->].
  apply bind_Ok_inv in Hrun as ([heap' bi'] & _ & Hrun).
  rewrite (IH _ _ _ _ Hrun) by lia.
  apply list_lookup_insert_ne. lia.
Qed.

Lemma init_heap_values (P : Z → Prop) (arr : list Z) (runs : list (Z * Z))
    (st : list Heapq.item * list Z) :
  init_heap arr runs = Ok st → Forall P arr →
  Forall (λ it : Heapq.item, P it.1) st.1.
Proof.
  unfold init_heap. intros Hrun Harr.
  apply (for_each_preserves (λ s, Forall (λ it : Heapq.item, P it.1) s.1)
           _ _ _ _ Hrun); [done|].
  intros x s0 s1 Hpush Hs0. by apply (push_next_values P _ _ _ _ _ Hpush).
Qed.

(** The elements of the array after the merge phase are elements of the
    array before it. *)
Lemma merge_phase_values (fuel : nat) (arr : list Z) (runs : list (Z * Z))
    (r : list Z * Z) :
  Oabs.merge_phase fuel arr runs = Ok r → Forall (λ x, x ∈ arr) r.1.
Proof.
  unfold Oabs.merge_phase. intros Hrun.
  apply bind_Ok_inv in Hrun as ([heap bi] & Hinit & Hrun).
  assert (Forall (λ x, x ∈ arr) arr) as Harr by (by apply Forall_forall).
  apply (merge_in_place_values _ _ _ _ _ _ _ _ Hrun); [done|].
  exact (init_heap_values (λ x, x ∈ arr) _ _ _ Hinit Harr).
Qed.

(** The first cell written by the merge is the least element. *)
Lemma merge_phase_first (fuel : nat) (arr : list Z) (runs : list (Z * Z))
    (n : Z) (r : list Z * Z) :
  n = Py.len arr → 0 < n → runs_chain 0 runs n →
  Forall (run_sorted arr) runs →
  Oabs.merge_phase fuel arr runs = Ok r →
  ∃ m, r.1 !! 0%nat = Some m ∧ m ∈ arr ∧ ∀ x, x ∈ arr → m ≤ x.
Proof.
  intros Hn Hpos Hchain Hruns. unfold Oabs.merge_phase.
  destruct (init_heap_spec arr runs n Hn Hchain Hruns)
    as (heap & bi & -> & Hinv).
  rewrite bind_Ok. destruct fuel as [|fuel]; [done|].
  destruct Hinv as [Hcur Hperm Hbound _ _]. simpl in Hperm.
  destruct heap as [|x0 heap0].
  { rewrite (cursor_inv_done runs arr bi Hcur) in Hperm.
    apply Permutation_length in Hperm. unfold Py.len in Hn. simpl in Hperm.
    lia. }
  cbn [Oabs.merge_in_place Heapq.heappop].
  destruct (Heapq.pop_min x0 heap0) as [[val block_id] rest] eqn:Hpop.
  rewrite bind_Ok. intros Hrun.
  destruct (pop_min_spec _ _ _ _ Hpop) as (Hpp & Hle0 & Hmin).
  apply bind_Ok_inv in Hrun as (arr1 & Harr1 & Hrun).
  apply setitem_Ok_inv in Harr1 as [Hw ->].
  apply bind_Ok_inv in Hrun as ([heap' bi'] & _ & Hrun).
  assert (∀ it : Heapq.item, it ∈ x0 :: heap0 → val ≤ it.1) as Hleast.
  { intros it Hit. rewrite Hpp in Hit.
    apply elem_of_cons in Hit as [->|Hit]; [done|].
    by apply (proj1 (Forall_forall _ _) Hmin it). }
  exists val. split; [|split].
  - rewrite (merge_in_place_prefix _ _ _ _ _ _ _ 0 Hrun) by lia.
    apply list_lookup_insert_eq. unfold Py.len in *. lia.
  - rewrite <- Hperm. apply elem_of_app. left.
    apply (list_elem_of_fmap_2 fst _ (val, block_id)).
    rewrite Hpp. left.
  - intros x Hx. rewrite <- Hperm in Hx. apply elem_of_app in Hx as [Hx|Hx].
    + apply list_elem_of_fmap in Hx as (it & -> & Hit). by apply Hleast.
    + apply elem_of_concat in Hx as (l & Hl & Hx).
      apply list_elem_of_lookup in Hl as [bn Hbn]. unfold pending in Hbn.
      apply lookup_zip_with_Some in Hbn as (c & e & -> & Hc & He).
      apply list_lookup_fmap_Some in He as (r0 & -> & Hr0).
      destruct (decide (c < r0.2)) as [Hlt|Hge]; cycle 1.
      { rewrite slice_empty in Hx by lia. by apply elem_of_nil in Hx. }
      destruct (ci_entry _ _ _ _ Hcur bn r0 c I Hr0 Hc Hlt) as [v Hv].
      pose proof (Hbound v bn r0 c Hv Hr0 Hc) as Hall.
      pose proof (proj1 (Forall_forall _ _) Hall x Hx) as Hvx. simpl in Hvx.
      pose proof (Hleast _ Hv) as Hvv. simpl in Hvv. lia.
Qed.

(** ** Further properties of the code *)

(** X1.  Step 1 of both functions (abs.py 13-21, oabs.py 29-39) returns
    and leaves every block [[b, min(b + block_size, n))] in non-decreasing
    order, holding the elements that the same block held in the input: the
    insertion sort never moves an element across a block boundary. *)
Theorem X1_block_sort_sorts_each_block (arr : list Z) (block_size : Z) :
  block_size = Abs.block_size (Py.len arr)
  ∨ block_size = Oabs.block_size (Py.len arr) →
  let n := Py.len arr in
  let fuel := S (length arr) in
  ∃ a, sort_blocks fuel n block_size arr = Ok a
    ∧ Py.len a = n
    ∧ a ≡ₚ arr
    ∧ ∀ b, 0 ≤ b < n → b `mod` block_size = 0 →
        run_sorted a (b, block_end n block_size b)
        ∧ slice a b (block_end n block_size b)
          ≡ₚ slice arr b (block_end n block_size b).
Proof.
  intros Hbs n fuel.
  assert (0 < block_size) as Hpos.
  { destruct Hbs as [-> | ->];
      [apply abs_block_size_pos|apply oabs_block_size_pos]. }
  apply sort_blocks_full; [done|done|unfold fuel, n, Py.len; lia].
Qed.

Lemma X1_witness :
  (Oabs.block_size 10 = Abs.block_size (Py.len scenario1)
   ∨ Oabs.block_size 10 = Oabs.block_size (Py.len scenario1))
  ∧ ∃ a, sort_blocks 11 10 (Oabs.block_size 10) scenario1 = Ok a
      ∧ Py.len a = 10
      ∧ a ≡ₚ scenario1
      ∧ ∀ b, 0 ≤ b < 10 → b `mod` Oabs.block_size 10 = 0 →
          run_sorted a (b, block_end 10 (Oabs.block_size 10) b)
          ∧ slice a b (block_end 10 (Oabs.block_size 10) b)
            ≡ₚ slice scenario1 b (block_end 10 (Oabs.block_size 10) b).
Proof.
  assert (Oabs.block_size 10 = Abs.block_size (Py.len scenario1)
          ∨ Oabs.block_size 10 = Oabs.block_size (Py.len scenario1)) as Hbs
    by (right; reflexivity).
  exact (conj Hbs
           (X1_block_sort_sorts_each_block scenario1 (Oabs.block_size 10) Hbs)).
Defined.

(** X2.  Run detection (abs.py 24-31, oabs.py 43-51) on any array returns
    runs that are maximal: a run ends at the end of the array or at a
    descent [arr[end - 1] > arr[end]], so no two neighbouring runs would
    form one run. *)
Theorem X2_runs_are_maximal (arr : list Z) :
  ∃ runs, detect_runs (S (length arr)) arr (Py.len arr) = Ok runs
    ∧ Forall (run_maximal arr (Py.len arr)) runs.
Proof.
  destruct (detect_runs_maximal (S (length arr)) arr (Py.len arr))
    as (runs & Hruns & _ & _ & Hmax); [done|unfold Py.len; lia|].
  by exists runs.
Qed.

(** X3.  In both functions every run found after the block sort starts on a
    block boundary (a multiple of [block_size]), and there are at most as
    many runs as blocks, so the heap of the merge never holds more pairs
    than there are blocks. *)
Theorem X3_runs_start_at_block_boundaries (arr : list Z) (block_size : Z) :
  block_size = Abs.block_size (Py.len arr)
  ∨ block_size = Oabs.block_size (Py.len arr) →
  let n := Py.len arr in
  let fuel := S (length arr) in
  ∃ a runs,
    sort_blocks fuel n block_size arr = Ok a
    ∧ detect_runs fuel a n = Ok runs
    ∧ Forall (λ r, r.1 `mod` block_size = 0) runs
    ∧ (length runs ≤ length (Py.range 0 n block_size))%nat.
Proof.
  intros Hbs n fuel.
  assert (0 < block_size) as Hpos.
  { destruct Hbs as [-> | ->];
      [apply abs_block_size_pos|apply oabs_block_size_pos]. }
  destruct (sort_blocks_full fuel n block_size arr)
    as (a & Ha & Hlen & _ & Hblocks); [done|done|unfold fuel, n, Py.len; lia|].
  destruct (detect_runs_maximal fuel a n)
    as (runs & Hruns & Hchain & _ & Hmax);
    [done|unfold fuel, n, Py.len; lia|].
  exists a, runs. split; [done|]. split; [done|].
  assert (Forall (λ r, r.1 `mod` block_size = 0) runs) as Haligned.
  { apply (runs_aligned a n block_size 0);
      [done| |lia|by rewrite Z.mod_0_l by lia|done|done].
    intros b Hb Hmod. by apply Hblocks. }
  split; [done|].
  destruct runs as [|r runs']; [simpl; lia|].
  pose proof (aligned_runs_count block_size 0 n (r :: runs') Hpos
                ltac:(done) Hchain Haligned) as Hcount.
  unfold Py.range. rewrite length_fmap, length_seq.
  assert (Z.of_nat (length (r :: runs'))
          ≤ (n - 0 + block_size - 1) `div` block_size); [|lia].
  apply Z.div_le_lower_bound; [done|]. lia.
Qed.

Lemma X3_witness :
  (Oabs.block_size 10 = Abs.block_size (Py.len descending_tail)
   ∨ Oabs.block_size 10 = Oabs.block_size (Py.len descending_tail))
  ∧ ∃ a runs,
      sort_blocks 11 10 (Oabs.block_size 10) descending_tail = Ok a
      ∧ detect_runs 11 a 10 = Ok runs
      ∧ Forall (λ r, r.1 `mod` Oabs.block_size 10 = 0) runs
      ∧ (length runs ≤ length (Py.range 0 10 (Oabs.block_size 10)))%nat.
Proof.
  assert (Oabs.block_size 10 = Abs.block_size (Py.len descending_tail)
          ∨ Oabs.block_size 10 = Oabs.block_size (Py.len descending_tail))
    as Hbs by (right; reflexivity).
  exact (conj Hbs
           (X3_runs_start_at_block_boundaries descending_tail
              (Oabs.block_size 10) Hbs)).
Defined.

(** The three ways through [optimized_adaptive_block_sort]. *)
Lemma oabs_run_cases (arr : list Z) :
  let n := Py.len arr in
  let fuel := S (length arr) in
  (n ≤ 1
   ∧ Oabs.optimized_adaptive_block_sort_run arr = Ok (ReturnTrivial, arr))
  ∨ (1 < n
     ∧ ∃ a runs,
         sort_blocks fuel n (Oabs.block_size n) arr = Ok a
         ∧ Py.len a = n ∧ a ≡ₚ arr
         ∧ detect_runs fuel a n = Ok runs
         ∧ runs_chain 0 runs n ∧ Forall (run_sorted a) runs
         ∧ ((runs = [(0, n)]
             ∧ Oabs.optimized_adaptive_block_sort_run arr
               = Ok (ReturnFastPath, a))
            ∨ (∃ a', Oabs.merge_phase fuel a runs = Ok (a', n)
                 ∧ Py.len a' = n
                 ∧ Oabs.optimized_adaptive_block_sort_run arr
                   = Ok (ReturnMerged, a')))).
Proof.
  intros n fuel. unfold Oabs.optimized_adaptive_block_sort_run.
  destruct (Z.leb_spec (Py.len arr) 1) as [Hshort|Hlong]; [by left|right].
  split; [done|]. fold n fuel.
  destruct (sort_blocks_spec fuel n (Oabs.block_size n) arr)
    as (a & Ha & Hlen & Hperm);
    [apply oabs_block_size_pos|done|unfold fuel, n, Py.len; lia|].
  destruct (detect_runs_spec fuel a n) as (runs & Hr & Hchain & Hruns);
    [done|unfold fuel, n, Py.len; lia|].
  exists a, runs. rewrite Ha, bind_Ok, Hr, bind_Ok.
  repeat (split; [done|]).
  destruct (single_full_run_spec runs n) as (fast & -> & Hfast).
  rewrite bind_Ok. destruct fast; [left; split; [by apply Hfast|done]|right].
  destruct (merge_phase_spec a runs n (eq_sym Hlen) Hchain fuel)
    as (a' & Hmerge & Hlen'); [unfold fuel, n, Py.len; lia|].
  exists a'. split; [done|]. split; [done|].
  by rewrite Hmerge, bind_Ok, final_adjustment_at_end.
Qed.

Lemma single_block_nondecreasing (fuel : nat) (block_size : Z)
    (arr : list Z) :
  0 < Py.len arr ≤ block_size → Py.len arr < Z.of_nat fuel →
  ∃ a, sort_blocks fuel (Py.len arr) block_size arr = Ok a
    ∧ Py.len a = Py.len arr ∧ a ≡ₚ arr ∧ nondecreasing a.
Proof.
  intros Hlen Hfuel.
  destruct (sort_blocks_full fuel (Py.len arr) block_size arr)
    as (a & Ha & Hlena & Hperm & Hblocks); [lia|done|done|].
  exists a. repeat (split; [done|]).
  destruct (Hblocks 0) as [Hrun _]; [lia|by rewrite Z.mod_0_l by lia|].
  unfold block_end in Hrun. rewrite Z.min_r in Hrun by lia.
  by apply (run_sorted_full a (Py.len arr)).
Qed.

(** X4.  [optimized_adaptive_block_sort] is right on every input of at
    most 8 elements: the whole array is one block, the insertion sort
    orders it, and the function returns the sorted input without reaching
    the merge. *)
Theorem X4_oabs_sorts_short_inputs (arr : list Z) :
  Py.len arr ≤ 8 →
  ∃ e, Oabs.optimized_adaptive_block_sort_run arr
       = Ok (e, reference_sort arr)
    ∧ e ≠ ReturnMerged
    ∧ Oabs.optimized_adaptive_block_sort arr = Ok (reference_sort arr).
Proof.
  intros Hlen.
  assert (∃ e, Oabs.optimized_adaptive_block_sort_run arr
               = Ok (e, reference_sort arr) ∧ e ≠ ReturnMerged)
    as (e & Hrun & He).
  { unfold Oabs.optimized_adaptive_block_sort_run.
    destruct (Z.leb_spec (Py.len arr) 1) as [Hshort|Hlong].
    { exists ReturnTrivial. split; [|done]. do 2 f_equal.
      apply sorted_perm_reference; [by apply short_list_sorted|done]. }
    destruct (single_block_nondecreasing (S (length arr))
                (Oabs.block_size (Py.len arr)) arr)
      as (a & -> & Hlena & Hperm & Hsorted).
    { pose proof (oabs_block_size_pos (Py.len arr)).
      unfold Oabs.block_size, Oabs.elements_per_cache_line,
        Oabs.cache_line_bytes, Oabs.element_size in *.
      change (64 `div` 8) with 8 in *. lia. }
    { unfold Py.len. lia. }
    rewrite bind_Ok, detect_runs_nondecreasing, bind_Ok;
      [|done|done|lia|unfold Py.len; lia].
    rewrite single_full_run_whole, bind_Ok.
    exists ReturnFastPath. split; [|done]. do 2 f_equal.
    apply sorted_perm_reference; [|done].
    by apply nondecreasing_StronglySorted. }
  exists e. split; [done|]. split; [done|].
  unfold Oabs.optimized_adaptive_block_sort. by rewrite Hrun.
Qed.

Lemma X4_witness :
  Py.len [5; 4; 3; 2; 1] ≤ 8
  ∧ ∃ e, Oabs.optimized_adaptive_block_sort_run [5; 4; 3; 2; 1]
         = Ok (e, reference_sort [5; 4; 3; 2; 1])
      ∧ e ≠ ReturnMerged
      ∧ Oabs.optimized_adaptive_block_sort [5; 4; 3; 2; 1]
        = Ok (reference_sort [5; 4; 3; 2; 1]).
Proof.
  assert (Py.len [5; 4; 3; 2; 1] ≤ 8) as Hlen
    by (unfold Py.len; simpl; lia).
  exact (conj Hlen (X4_oabs_sorts_short_inputs [5; 4; 3; 2; 1] Hlen)).
Defined.

(** X5.  [adaptive_block_sort] sorts every input of at most 32 elements by
    the insertion sort alone: the array is one block and the function
    leaves through the guard or the fast path, never through the heap
    merge. *)
Theorem X5_abs_short_inputs_skip_the_merge (arr : list Z) :
  Py.len arr ≤ 32 →
  ∃ e, Abs.adaptive_block_sort_run arr = Ok (e, reference_sort arr)
    ∧ e ≠ ReturnMerged.
Proof.
  intros Hlen. unfold Abs.adaptive_block_sort_run.
  destruct (Z.leb_spec (Py.len arr) 1) as [Hshort|Hlong].
  { exists ReturnTrivial. split; [|done]. do 2 f_equal.
    apply sorted_perm_reference; [by apply short_list_sorted|done]. }
  destruct (single_block_nondecreasing (S (length arr))
              (Abs.block_size (Py.len arr)) arr)
    as (a & -> & Hlena & Hperm & Hsorted);
    [unfold Abs.block_size; lia|unfold Py.len; lia|].
  rewrite bind_Ok, detect_runs_nondecreasing, bind_Ok;
    [|done|done|lia|unfold Py.len; lia].
  rewrite single_full_run_whole, bind_Ok.
  exists ReturnFastPath. split; [|done]. do 2 f_equal.
  apply sorted_perm_reference; [|done].
  by apply nondecreasing_StronglySorted.
Qed.

Lemma X5_witness :
  Py.len scenario1 ≤ 32
  ∧ ∃ e, Abs.adaptive_block_sort_run scenario1
         = Ok (e, reference_sort scenario1)
      ∧ e ≠ ReturnMerged.
Proof.
  assert (Py.len scenario1 ≤ 32) as Hlen by (unfold Py.len; simpl; lia).
  exact (conj Hlen (X5_abs_short_inputs_skip_the_merge scenario1 Hlen)).
Defined.

(** X6.  Whenever [optimized_adaptive_block_sort] leaves through the guard
    or through the fast path, the list it returns is the sorted input: its
    wrong results all come from the in-place merge. *)
Theorem X6_oabs_right_unless_merged (arr r : list Z) (e : exit_point) :
  Oabs.optimized_adaptive_block_sort_run arr = Ok (e, r) →
  e ≠ ReturnMerged →
  nondecreasing r ∧ r ≡ₚ arr ∧ r = reference_sort arr.
Proof.
  intros Hrun He.
  assert (StronglySorted Z.le r ∧ r ≡ₚ arr) as [Hsorted Hperm].
  { destruct (oabs_run_cases arr)
      as [[Hshort Htriv]
         |(Hlong & a & runs & _ & Hlen & Hperm & _ & _ & Hruns
           & [[-> Hfast]|(a' & _ & _ & Hmerged)])].
    - assert (r = arr) as -> by congruence.
      split; [by apply short_list_sorted|done].
    - assert (r = a) as -> by congruence. split; [|done].
      apply nondecreasing_StronglySorted.
      apply (run_sorted_full a (Py.len arr)); [|done].
      by apply (Forall_lookup_1 _ _ 0%nat _ Hruns).
    - congruence. }
  split; [by apply StronglySorted_nondecreasing|]. split; [done|].
  by apply sorted_perm_reference.
Qed.

Lemma X6_witness :
  Oabs.optimized_adaptive_block_sort_run [5; 4; 3; 2; 1]
  = Ok (ReturnFastPath, [1; 2; 3; 4; 5])
  ∧ ReturnFastPath ≠ ReturnMerged
  ∧ nondecreasing [1; 2; 3; 4; 5]
  ∧ [1; 2; 3; 4; 5] ≡ₚ [5; 4; 3; 2; 1]
  ∧ [1; 2; 3; 4; 5] = reference_sort [5; 4; 3; 2; 1].
Proof.
  assert (Oabs.optimized_adaptive_block_sort_run [5; 4; 3; 2; 1]
          = Ok (ReturnFastPath, [1; 2; 3; 4; 5])) as Hrun
    by (vm_compute; reflexivity).
  assert (ReturnFastPath ≠ ReturnMerged) as He by discriminate.
  exact (conj Hrun (conj He
    (X6_oabs_right_unless_merged [5; 4; 3; 2; 1] [1; 2; 3; 4; 5]
       ReturnFastPath Hrun He))).
Defined.

(** X7.  [optimized_adaptive_block_sort] never creates an element and never
    changes the length: on every input it returns a list as long as the
    input whose elements all occur in the input (it can lose some and
    repeat others). *)
Theorem X7_oabs_keeps_length_and_creates_nothing (arr : list Z) :
  ∃ r, Oabs.optimized_adaptive_block_sort arr = Ok r
    ∧ length r = length arr
    ∧ ∀ x, x ∈ r → x ∈ arr.
Proof.
  unfold Oabs.optimized_adaptive_block_sort.
  destruct (oabs_run_cases arr)
    as [[Hshort ->]
       |(Hlong & a & runs & _ & Hlen & Hperm & _ & _ & _
         & [[_ ->]|(a' & Hmerge & Hlen' & ->)])].
  - by exists arr.
  - exists a. split; [done|]. split; [by apply Permutation_length|].
    intros x. by rewrite Hperm.
  - exists a'. split; [done|]. split; [unfold Py.len in *; lia|].
    intros x Hx.
    pose proof (merge_phase_values _ _ _ _ Hmerge) as Hall. simpl in Hall.
    rewrite <- Hperm. by apply (proj1 (Forall_forall _ _) Hall).
Qed.

(** X8.  On a non-empty input the first element that
    [optimized_adaptive_block_sort] returns is the least element of the
    input: the first pop of the merge is the minimum, and the cell it is
    written to is never written again. *)
Theorem X8_oabs_first_is_minimum (arr : list Z) :
  arr ≠ [] →
  ∃ r m, Oabs.optimized_adaptive_block_sort arr = Ok r
    ∧ r !! 0%nat = Some m
    ∧ m ∈ arr
    ∧ ∀ x, x ∈ arr → m ≤ x.
Proof.
  intros Hne. unfold Oabs.optimized_adaptive_block_sort.
  assert (0 < Py.len arr) as Hpos
    by (destruct arr; [done|unfold Py.len; simpl; lia]).
  assert (∀ l : list Z, StronglySorted Z.le l → l ≡ₚ arr →
            ∃ m, l !! 0%nat = Some m ∧ m ∈ arr ∧ ∀ x, x ∈ arr → m ≤ x)
    as Hsorted_head.
  { intros l Hl Hperm. destruct l as [|m l].
    { apply Permutation_length in Hperm. unfold Py.len in Hpos.
      simpl in Hperm. lia. }
    exists m. split; [done|]. split; [rewrite <- Hperm; left|].
    intros x Hx. rewrite <- Hperm in Hx.
    apply StronglySorted_inv in Hl as [_ Hall].
    apply elem_of_cons in Hx as [->|Hx]; [done|].
    by apply (proj1 (Forall_forall _ _) Hall). }
  destruct (oabs_run_cases arr)
    as [[Hshort ->]
       |(Hlong & a & runs & _ & Hlen & Hperm & _ & Hchain & Hruns
         & [[-> ->]|(a' & Hmerge & Hlen' & ->)])].
  - destruct (Hsorted_head arr) as (m & Hm); [by apply short_list_sorted|done|].
    by exists arr, m.
  - destruct (Hsorted_head a) as (m & Hm); [|done|by exists a, m].
    apply nondecreasing_StronglySorted.
    apply (run_sorted_full a (Py.len arr)); [|done].
    by apply (Forall_lookup_1 _ _ 0%nat _ Hruns).
  - destruct (merge_phase_first _ a runs (Py.len arr) _ (eq_sym Hlen) Hpos
                Hchain Hruns Hmerge) as (m & Hm & Hin & Hmin).
    exists a', m. split; [done|]. split; [done|].
    split; [by rewrite <- Hperm|]. intros x Hx. apply Hmin.
    by rewrite Hperm.
Qed.

Lemma X8_witness :
  descending_tail ≠ []
  ∧ ∃ r m, Oabs.optimized_adaptive_block_sort descending_tail = Ok r
      ∧ r !! 0%nat = Some m
      ∧ m ∈ descending_tail
      ∧ ∀ x, x ∈ descending_tail → m ≤ x.
Proof.
  assert (descending_tail ≠ []) as Hne by discriminate.
  exact (conj Hne (X8_oabs_first_is_minimum descending_tail Hne)).
Defined.

(** X9.  [adaptive_block_sort] is idempotent: sorting its own result
    returns the same list again. *)
Theorem X9_abs_idempotent (arr : list Z) :
  ∃ r, Abs.adaptive_block_sort arr = Ok r
    ∧ Abs.adaptive_block_sort r = Ok r.
Proof.
  destruct (adaptive_block_sort_run_spec arr)
    as (e & r & Hrun & Hsorted & _ & _).
  exists r. unfold Abs.adaptive_block_sort. rewrite Hrun. split; [done|].
  destruct (decide (Py.len r ≤ 1)) as [Hshort|Hlong].
  - destruct (adaptive_block_sort_run_spec r) as (e' & r' & -> & _ & _ & Hr').
    by destruct (Hr' Hshort) as [_ ->].
  - rewrite abs_run_nondecreasing;
      [done|by apply StronglySorted_nondecreasing|lia].
Qed.

(** X10.  [insertion_sort] of benchmark.py returns, on every input and
    without an index out of range, the input in non-decreasing order with
    the same elements. *)
Theorem X10_insertion_sort_sorts (arr : list Z) :
  ∃ r, Benchmark.insertion_sort arr = Ok r
    ∧ nondecreasing r ∧ r ≡ₚ arr.
Proof.
  destruct (insertion_sort_spec arr) as (r & Hr & Hsorted & Hperm).
  exists r. split; [done|]. split; [|done].
  by apply StronglySorted_nondecreasing.
Qed.

(** X11.  [merge] of benchmark.py returns on all inputs a list with the
    elements of both lists, sorted or not; when both lists are in
    non-decreasing order so is the result. *)
Theorem X11_merge_merges (left right : list Z) :
  ∃ r, Benchmark.merge left right = Ok r
    ∧ r ≡ₚ left ++ right
    ∧ (nondecreasing left → nondecreasing right → nondecreasing r).
Proof.
  destruct (benchmark_merge_spec left right) as (r & Hr & Hperm & Hsorted).
  exists r. split; [done|]. split; [done|]. intros Hl Hr'.
  apply StronglySorted_nondecreasing.
  apply Hsorted; by apply nondecreasing_StronglySorted.
Qed.

(** X12.  [mergesort] of benchmark.py returns, on every input, the input
    in non-decreasing order with the same elements. *)
Theorem X12_mergesort_sorts (arr : list Z) :
  ∃ r, Benchmark.mergesort arr = Ok r
    ∧ nondecreasing r ∧ r ≡ₚ arr.
Proof.
  destruct (mergesort_rec_spec (S (length arr)) arr)
    as (r & Hr & Hsorted & Hperm); [lia|].
  exists r. split; [done|]. split; [|done].
  by apply StronglySorted_nondecreasing.
Qed.


(** X14.  [verify_sorted] never reads out of range, the empty and the
    one-element list included, and answers [True] exactly for the lists in
    non-decreasing order. *)
Theorem X14_verify_sorted_decides_order (arr : list Z) :
  ∃ b, Benchmark.verify_sorted arr = Ok b
    ∧ (b = true ↔ nondecreasing arr).
Proof. apply verify_sorted_spec. Qed.


